(** * artifactreconstruct-ai: retry wrapper, response readers, PCM decoder
      and the upload handler, embedded from the TypeScript sources.

    Layout: the definitions come first (JavaScript values and strings,
    [withRetry], the three service functions of geminiService, the audio
    decoder, the upload handler, the narration playback and the upload flow
    of App), then the theorems. *)

From Stdlib Require Import ZArith QArith Qround String Ascii List Bool Lia.
From Stdlib Require Import DecimalString.
From Stdlib.Strings Require Import Byte.
From stdpp Require Import base list.
Import ListNotations.

Local Open Scope string_scope.
Local Open Scope Z_scope.
Local Set Warnings "-register-all".

(* ===================================================================== *)
(** ** JavaScript values *)
(* ===================================================================== *)

(** The values that cross the [any]-typed positions of the sources (caught
    errors, parsed JSON).  Numbers are the integral ones, which a double
    holds exactly below 2^53; objects and arrays carry their own data
    properties in insertion order. *)
Inductive JSVal : Type :=
| JUndefined
| JNull
| JBool (b : bool)
| JNum (n : Z)
| JStr (s : string)
| JArr (elems : list JSVal) (props : list (string * JSVal))
| JObj (props : list (string * JSVal)).

(** Outcome of an expression or of a settled promise. *)
Inductive result (A : Type) : Type :=
| Ok (a : A)
| Throw (e : JSVal).
Arguments Ok {A} a.
Arguments Throw {A} e.

(** [new Error(msg)] and the engine's own [TypeError]; only the properties
    the sources read are kept. *)
Definition Error (msg : string) : JSVal := JObj [("message", JStr msg)].
Definition TypeError (msg : string) : JSVal :=
  JObj [("name", JStr "TypeError"); ("message", JStr msg)].

Fixpoint own (props : list (string * JSVal)) (key : string) : option JSVal :=
  match props with
  | [] => None
  | (k, v) :: rest => if String.eqb k key then Some v else own rest key
  end.

(** [o[key] = v] on a property list: an existing key keeps its place. *)
Fixpoint put (props : list (string * JSVal)) (key : string) (v : JSVal)
  : list (string * JSVal) :=
  match props with
  | [] => [(key, v)]
  | (k, x) :: rest =>
      if String.eqb k key then (k, v) :: rest else (k, x) :: put rest key v
  end.

(** [v?.key] for the data keys the sources read (none of them is an index,
    [length] or a prototype member). *)
Definition opt_get (v : JSVal) (key : string) : JSVal :=
  match v with
  | JObj props | JArr _ props => default JUndefined (own props key)
  | _ => JUndefined
  end.

(** [v.key] read: as [opt_get], but reading from [undefined] or [null] throws. *)
Definition get_prop (v : JSVal) (key : string) : result JSVal :=
  match v with
  | JUndefined =>
      Throw (TypeError ("Cannot read properties of undefined (reading '" ++ key ++ "')"))
  | JNull =>
      Throw (TypeError ("Cannot read properties of null (reading '" ++ key ++ "')"))
  | _ => Ok (opt_get v key)
  end.

(** How the engine's message names a primitive: its type and its text. *)
Definition primitive_text (v : JSVal) : string :=
  match v with
  | JNum n => "number '" ++ NilZero.string_of_int (Z.to_int n) ++ "'"
  | JStr s => "string '" ++ s ++ "'"
  | JBool true => "boolean 'true'"
  | JBool false => "boolean 'false'"
  | _ => ""
  end.

(** [v.key = x] in module (strict) code. *)
Definition set_prop (v : JSVal) (key : string) (x : JSVal) : result JSVal :=
  match v with
  | JObj props => Ok (JObj (put props key x))
  | JArr elems props => Ok (JArr elems (put props key x))
  | JUndefined =>
      Throw (TypeError ("Cannot set properties of undefined (setting '" ++ key ++ "')"))
  | JNull =>
      Throw (TypeError ("Cannot set properties of null (setting '" ++ key ++ "')"))
  | _ =>
      Throw (TypeError ("Cannot create property '" ++ key ++ "' on " ++ primitive_text v))
  end.

(** ToBoolean. *)
Definition truthy (v : JSVal) : bool :=
  match v with
  | JUndefined | JNull => false
  | JBool b => b
  | JNum n => negb (n =? 0)
  | JStr s => negb (String.eqb s "")
  | JArr _ _ | JObj _ => true
  end.

(** [v === 'lit'] and [v === n]. *)
Definition strict_eq_str (v : JSVal) (lit : string) : bool :=
  match v with JStr s => String.eqb s lit | _ => false end.
Definition strict_eq_num (v : JSVal) (n : Z) : bool :=
  match v with JNum m => m =? n | _ => false end.

(** [String.prototype.includes]. *)
Fixpoint includes (s needle : string) : bool :=
  String.prefix needle s ||
  match s with
  | EmptyString => false
  | String _ rest => includes rest needle
  end.

(** [String.prototype.toLowerCase] on the ASCII letters; other code units
    are left as they are. *)
Definition lower_ascii (c : ascii) : ascii :=
  let n := nat_of_ascii c in
  if ((65 <=? n)%nat && (n <=? 90)%nat)%bool then ascii_of_nat (n + 32) else c.

Fixpoint toLowerCase (s : string) : string :=
  match s with
  | EmptyString => EmptyString
  | String c rest => String (lower_ascii c) (toLowerCase rest)
  end.

(** [`${v}`] for an optional string: an absent one prints as [undefined]. *)
Definition template (v : option string) : string := default "undefined" v.

(* ===================================================================== *)
(** ** services/geminiService: withRetry *)
(* ===================================================================== *)

Definition MAX_RETRIES : nat := 2.
Definition INITIAL_BACKOFF : Z := 1000.

(** What an observer of a run sees: each call of the wrapped operation and
    each [setTimeout] suspension with its delay in milliseconds. *)
Inductive Event : Type :=
| Attempt
| Sleep (ms : Z).

(** The remote side's state and the events so far, oldest first. *)
Record World (S : Type) : Type := mkWorld {
  remote : S;
  events : list Event
}.
Arguments mkWorld {S} remote events.
Arguments remote {S} w.
Arguments events {S} w.

Definition log {S} (e : Event) (w : World S) : World S :=
  mkWorld (remote w) (events w ++ [e]).

(** [error?.message?.includes('500')]: a string searches for the substring, an
    array for the element; any other present message has no callable
    [includes], and the call throws. *)
Definition message_includes (error : JSVal) (needle : string) : result JSVal :=
  match opt_get error "message" with
  | JUndefined | JNull => Ok JUndefined
  | JStr s => Ok (JBool (includes s needle))
  | JArr elems props =>
      match own props "includes" with
      | None => Ok (JBool (existsb (fun x => strict_eq_str x needle) elems))
      | Some _ => Throw (TypeError "error?.message?.includes is not a function")
      end
  | _ => Throw (TypeError "error?.message?.includes is not a function")
  end.

(** [error?.status === 'INTERNAL' || error?.code === 500 ||
     error?.message?.includes('500')] *)
Definition isTransient (error : JSVal) : result JSVal :=
  if strict_eq_str (opt_get error "status") "INTERNAL" then Ok (JBool true)
  else if strict_eq_num (opt_get error "code") 500 then Ok (JBool true)
  else message_includes error "500".

(** [withRetry(fn, retries, delay)].  [fn] acts on the remote state; the
    wrapper records its own calls and suspensions.  [retries] is a count
    and [delay] a whole number of milliseconds, which doubling keeps exact. *)
Fixpoint withRetry {S T} (fn : S -> result T * S) (retries : nat) (delay : Z)
    (w : World S) : result T * World S :=
  let (r, s) := fn (remote w) in
  let w1 := mkWorld s (events w ++ [Attempt]) in
  match r with
  | Ok v => (Ok v, w1)
  | Throw error =>
      match isTransient error with
      | Throw e => (Throw e, w1)
      | Ok t =>
          match retries with
          | S retries' =>
              if truthy t
              then withRetry fn retries' (delay * 2) (log (Sleep delay) w1)
              else (Throw error, w1)
          | O => (Throw error, w1)
          end
      end
  end.

(** A call that leaves [retries] and [delay] to their defaults. *)
Definition withRetry_default {S T} (fn : S -> result T * S)
  : World S -> result T * World S :=
  withRetry fn MAX_RETRIES INITIAL_BACKOFF.

(* ===================================================================== *)
(** ** services/geminiService: the three service functions *)
(* ===================================================================== *)

(** Computations over the remote state that may throw. *)
Definition Async (S A : Type) : Type := S -> result A * S.

Definition ret {S A} (a : A) : Async S A := fun s => (Ok a, s).
Definition throw {S A} (e : JSVal) : Async S A := fun s => (Throw e, s).
Definition lift {S A} (r : result A) : Async S A := fun s => (r, s).
Definition bind {S A B} (m : Async S A) (k : A -> Async S B) : Async S B :=
  fun s =>
    match m s with
    | (Ok a, s') => k a s'
    | (Throw e, s') => (Throw e, s')
    end.

Notation "x <- m ;; k" := (bind m (fun x => k))
  (at level 89, m at next level, right associativity).

(** [o?.f] on an optional member, chaining to the left. *)
Definition chain {A B} (o : option A) (f : A -> option B) : option B :=
  match o with
  | Some a => f a
  | None => None
  end.

Notation "o ?> f" := (chain o f) (at level 50, left associativity).

Module Gemini.

(** The response shapes of the generation service that the sources read.
    Every member is optional, as the optional chaining in the sources
    expects; [text] stands for the SDK's accessor of that name. *)
Record Blob : Type := mkBlob {
  mimeType : option string;
  data : option string
}.
Record Part : Type := mkPart {
  partText : option string;
  inlineData : option Blob
}.
Record Content : Type := mkContent {
  parts : option (list Part)
}.
Record GroundingChunkWeb : Type := mkWeb {
  uri : option string;
  title : option string
}.
Record GroundingChunk : Type := mkChunk {
  web : option GroundingChunkWeb
}.
Record GroundingMetadata : Type := mkMetadata {
  groundingChunks : option (list GroundingChunk)
}.
Record Candidate : Type := mkCandidate {
  content : option Content;
  groundingMetadata : option GroundingMetadata
}.
Record GenerateContentResponse : Type := mkResponse {
  candidates : option (list Candidate);
  text : option string
}.

(** The three request shapes.  The fixed instruction text and the
    response schema of the analysis request are constants of the source
    and are not repeated here. *)
Inductive Request : Type :=
| AnalysisRequest (model imageData context : string)
| ImageRequest (model prompt aspectRatio imageSize : string)
| SpeechRequest (model prompt voiceName : string).

(** [ai.models.generateContent], the remote call. *)
Definition Remote (S : Type) : Type :=
  Request -> Async S GenerateContentResponse.

(** [response.candidates?.[0]] *)
Definition candidate0 (response : GenerateContentResponse) : option Candidate :=
  candidates response ?> head.

(** [response.candidates?.[0]?.content?.parts] *)
Definition parts0 (response : GenerateContentResponse) : option (list Part) :=
  candidate0 response ?> content ?> parts.

(** [s.split(',')[1]]: the piece between the first and the second comma. *)
Fixpoint until_comma (s : string) : string :=
  match s with
  | EmptyString => EmptyString
  | String c rest =>
      if Ascii.eqb c "," then EmptyString else String c (until_comma rest)
  end.

Fixpoint split_comma_1 (s : string) : option string :=
  match s with
  | EmptyString => None
  | String c rest =>
      if Ascii.eqb c "," then Some (until_comma rest) else split_comma_1 rest
  end.

(** [a || b] on an optional string. *)
Definition or_else (a : option string) (b : string) : string :=
  match a with
  | Some s => if String.eqb s "" then b else s
  | None => b
  end.

(** The entry pushed for one grounding chunk, when it has a [web] member. *)
Definition GroundingSource (w : GroundingChunkWeb) : JSVal :=
  JObj [("title", JStr (or_else (title w) "Museum Database Entry"));
        ("uri", match uri w with Some u => JStr u | None => JUndefined end)].

(** The [sources] array built from the grounding chunks. *)
Definition collect_sources (response : GenerateContentResponse) : list JSVal :=
  match candidate0 response ?> groundingMetadata ?> groundingChunks with
  | Some chunks =>
      fold_left
        (fun sources chunk =>
           match web chunk with
           | Some w => (sources ++ [GroundingSource w])%list
           | None => sources
           end)
        chunks []
  | None => []
  end.

(** The request of [analyzeArtifact]: the image without its data-URI
    prefix, and the context hint. *)
Definition analysis_request (base64Image context : string) : Request :=
  AnalysisRequest "gemini-3-pro-preview"
    (or_else (split_comma_1 base64Image) base64Image) context.

(** The operation [analyzeArtifact] hands to [withRetry]; [parse] is
    [JSON.parse]. *)
Definition analyze_once {S} (parse : string -> result JSVal)
    (generateContent : Remote S) (base64Image context : string)
  : Async S JSVal :=
  response <- generateContent (analysis_request base64Image context) ;;
  let text := or_else (text response) "{}" in
  analysis <- lift (parse text) ;;
  let sources := collect_sources response in
  lift (set_prop analysis "sources" (JArr sources [])).

Definition analyzeArtifact {S} (parse : string -> result JSVal)
    (generateContent : Remote S) (base64Image context : string)
  : World S -> result JSVal * World S :=
  withRetry_default (analyze_once parse generateContent base64Image context).

(** The [for ... of] scan of [generateImage]: the first part with an
    [inlineData] member decides. *)
Fixpoint scan_parts (ps : list Part) : result string :=
  match ps with
  | [] => Throw (Error "Visual synthesis failed. The fragment might be too complex.")
  | part :: rest =>
      match inlineData part with
      | Some blob => Ok ("data:image/png;base64," ++ template (data blob))
      | None => scan_parts rest
      end
  end.

Definition image_request (prompt : string) : Request :=
  ImageRequest "gemini-3-pro-image-preview"
    ("Professional, sharp, museum archival photograph. STICK TO THE SUBJECT DESCRIPTION EXACTLY. NO CREATIVE LIBERTIES. The subject is a single, WHOLE, fully reconstructed ancient object. Subject: "
       ++ prompt)
    "1:1" "1K".

Definition generate_image_once {S} (generateContent : Remote S) (prompt : string)
  : Async S string :=
  response <- generateContent (image_request prompt) ;;
  lift (scan_parts (default [] (parts0 response))).

Definition generateImage {S} (generateContent : Remote S) (prompt : string)
  : World S -> result string * World S :=
  withRetry_default (generate_image_once generateContent prompt).

Definition speech_request (narrative : string) : Request :=
  SpeechRequest "gemini-2.5-flash-preview-tts"
    ("Narrate in an authoritative and calm museum curator voice: " ++ narrative)
    "Kore".

Definition generate_speech_once {S} (generateContent : Remote S) (narrative : string)
  : Async S string :=
  response <- generateContent (speech_request narrative) ;;
  match parts0 response ?> head ?> inlineData ?> data with
  | Some base64Audio =>
      if String.eqb base64Audio "" then throw (Error "Audio synthesis failed.")
      else ret base64Audio
  | None => throw (Error "Audio synthesis failed.")
  end.

Definition generateSpeech {S} (generateContent : Remote S) (narrative : string)
  : World S -> result string * World S :=
  withRetry_default (generate_speech_once generateContent narrative).

End Gemini.

(* ===================================================================== *)
(** ** App: decodeAudioData *)
(* ===================================================================== *)

Module Audio.

(** A Float32 sample.  Every finite value that the decoder stores is a
    16-bit integer over 2^15, which single precision holds exactly, so
    finite samples are kept as rationals. *)
Inductive Float : Type :=
| Fin (q : Q)
| NaN.

(** An [AudioBuffer]: planar, one sample list per channel. *)
Record AudioBuffer : Type := mkBuffer {
  sampleRate : Z;
  channels : list (list Float)
}.

(** The limits of an [AudioContext] that [createBuffer] enforces. *)
Record AudioContext : Type := mkContext {
  maxChannels : nat;
  minRate : Z;
  maxRate : Z
}.

Definition RangeError (msg : string) : JSVal :=
  JObj [("name", JStr "RangeError"); ("message", JStr msg)].
Definition NotSupportedError (msg : string) : JSVal :=
  JObj [("name", JStr "NotSupportedError"); ("message", JStr msg)].

(** Two bytes read as a little-endian signed 16-bit integer (typed arrays
    use the byte order of the platform, little-endian wherever browsers
    run). *)
Definition int16 (lo hi : byte) : Z :=
  let u := Z.of_N (Byte.to_N lo) + 256 * Z.of_N (Byte.to_N hi) in
  if u <? 32768 then u else u - 65536.

Fixpoint int16_view (bytes : list byte) : list Z :=
  match bytes with
  | lo :: hi :: rest => int16 lo hi :: int16_view rest
  | _ => []
  end.

(** [new Int16Array(data.buffer)], for a [Uint8Array] that spans its whole
    buffer (as the one [decodeBase64] allocates does): the constructor
    rejects a byte length that is not a multiple of 2. *)
Definition new_Int16Array (buffer : list byte) : result (list Z) :=
  if Nat.even (length buffer) then Ok (int16_view buffer)
  else Throw (RangeError "byte length of Int16Array should be a multiple of 2").

(** The conversion of a non-negative number to WebIDL [unsigned long]:
    truncate, then wrap at 2^32. *)
Definition ToUint32 (x : Q) : Z := Qfloor x mod 2 ^ 32.

(** [ctx.createBuffer(numberOfChannels, frameLength, rate)]: a zeroed
    buffer, or NotSupportedError when an argument is zero or outside the
    context's range. *)
Definition createBuffer (ctx : AudioContext) (numberOfChannels : nat)
    (frameLength : Q) (rate : Z) : result AudioBuffer :=
  let frames := ToUint32 frameLength in
  if ((1 <=? numberOfChannels)%nat && (numberOfChannels <=? maxChannels ctx)%nat
      && (1 <=? frames) && (minRate ctx <=? rate) && (rate <=? maxRate ctx))%bool
  then Ok (mkBuffer rate
             (replicate numberOfChannels (replicate (Z.to_nat frames) (Fin 0))))
  else Throw (NotSupportedError "createBuffer: argument outside its nominal range").

(** [dataInt16[k] / 32768.0]; a read past the end is [undefined] and
    divides to NaN. *)
Definition scaled (raw : option Z) : Float :=
  match raw with
  | Some v => Fin (v # 32768)
  | None => NaN
  end.

(** The inner [for]: [i] runs over the integers below [frameCount]; a
    store past the end of the Float32Array is dropped. *)
Definition fill_channel (dataInt16 : list Z) (numChannels channel : nat)
    (frameCount : Q) (channelData : list Float) : list Float :=
  fold_left
    (fun cd i => <[i := scaled (dataInt16 !! (i * numChannels + channel)%nat)]> cd)
    (seq 0 (Z.to_nat (Qceiling frameCount)))
    channelData.

(** [decodeAudioData(data, ctx, sampleRate, numChannels)].  With
    [numChannels = 0] the source's [frameCount] is infinite or NaN; its
    value is not used, since [createBuffer] rejects zero channels. *)
Definition decodeAudioData (data : list byte) (ctx : AudioContext)
    (rate : Z) (numChannels : nat) : result AudioBuffer :=
  match new_Int16Array data with
  | Throw e => Throw e
  | Ok dataInt16 =>
      let frameCount := (Z.of_nat (length dataInt16) # Pos.of_nat numChannels)%Q in
      match createBuffer ctx numChannels frameCount rate with
      | Throw e => Throw e
      | Ok buffer =>
          Ok (fold_left
                (fun buf channel =>
                   mkBuffer (sampleRate buf)
                     (alter (fill_channel dataInt16 numChannels channel frameCount)
                        channel (channels buf)))
                (seq 0 numChannels) buffer)
      end
  end.

(** Read-outs of a buffer. *)
Definition numberOfChannels (b : AudioBuffer) : nat := length (channels b).
Definition frames (b : AudioBuffer) : option nat := length <$> head (channels b).
Definition sample_at (b : AudioBuffer) (channel frame : nat) : option Float :=
  channels b !! channel ≫= (.!! frame).

End Audio.

(* ===================================================================== *)
(** ** App: the upload handler *)
(* ===================================================================== *)

Module App.

Inductive AppStatus : Type := idle | analyzing | generating | complete | error.

(** [ReconstructionData]; [None] stands for [null] (and, for the optional
    [audioBlob], for an absent member too). *)
Record ReconstructionData : Type := mkData {
  analysis : JSVal;
  pastImage : option string;
  presentImage : option string;
  originalImage : option string;
  audioBlob : option string
}.

(** The component state that the handler touches. *)
Record State : Type := mkState {
  status : AppStatus;
  hasKey : bool;
  data : ReconstructionData;
  errorText : option string
}.

Definition setStatus (x : AppStatus) : Async State unit :=
  fun st => (Ok tt, mkState x (hasKey st) (data st) (errorText st)).
Definition setHasKey (x : bool) : Async State unit :=
  fun st => (Ok tt, mkState (status st) x (data st) (errorText st)).
Definition setData (f : ReconstructionData -> ReconstructionData) : Async State unit :=
  fun st => (Ok tt, mkState (status st) (hasKey st) (f (data st)) (errorText st)).
Definition setError (x : option string) : Async State unit :=
  fun st => (Ok tt, mkState (status st) (hasKey st) (data st) x).

(** A promise once it has settled: how, and at which instant. *)
Record Settled (A : Type) : Type := mkSettled {
  outcome : result A;
  settledAt : nat
}.
Arguments mkSettled {A} outcome settledAt.
Arguments outcome {A} s.
Arguments settledAt {A} s.

Definition earlier_rejection {A} (acc : option (nat * JSVal)) (p : Settled A)
  : option (nat * JSVal) :=
  match outcome p with
  | Ok _ => acc
  | Throw e =>
      match acc with
      | Some (t, _) => if (t <=? settledAt p)%nat then acc else Some (settledAt p, e)
      | None => Some (settledAt p, e)
      end
  end.

Definition fulfilled {A} (p : Settled A) : option A :=
  match outcome p with
  | Ok v => Some v
  | Throw _ => None
  end.

(** [Promise.all]: rejects with the reason of the promise that rejected
    first; fulfils with all the values, in array order, when none did. *)
Definition Promise_all {A} (ps : list (Settled A)) : result (list A) :=
  match fold_left earlier_rejection ps None with
  | Some (_, e) => Throw e
  | None => Ok (omap fulfilled ps)
  end.

(** [(m || '').toLowerCase()] *)
Definition lowered_message (m : JSVal) : result string :=
  match (if truthy m then m else JStr "") with
  | JStr s => Ok (toLowerCase s)
  | _ => Throw (TypeError "(err.message || '').toLowerCase is not a function")
  end.

(** [m || fallback], for the message once it is known to be a string or
    falsy. *)
Definition message_or (m : JSVal) (fallback : string) : string :=
  match m with
  | JStr s => if String.eqb s "" then fallback else s
  | _ => fallback
  end.

(** The [catch (err)] block of the handler. *)
Definition on_failure (err : JSVal) : Async State unit :=
  m <- lift (get_prop err "message") ;;
  msg <- lift (lowered_message m) ;;
  _ <- (if (includes msg "permission" || includes msg "403" || includes msg "not found")%bool
        then
          _ <- setError (Some "API Access Refused. Please select a valid paid key.") ;;
          setHasKey false
        else if (includes msg "500" || includes msg "internal")%bool
        then setError (Some "The AI model encountered a temporary hiccup. Please try again.")
        else setError (Some (message_or m
               "Forensic analysis failed. The image might be too blurry or complex."))) ;;
  setStatus error.

(** The generation stage inside the [try]: the three prompts are read off
    the analysis, the three calls settle as [past], [present] and [audio]
    say, and the results are stored only after [Promise.all] fulfils. *)
Definition generation (analysisResult : JSVal)
    (past present audio : Settled string) : Async State unit :=
  _ <- setStatus generating ;;
  pastReconstruction <- lift (get_prop analysisResult "pastReconstruction") ;;
  _ <- lift (get_prop pastReconstruction "visualPrompt") ;;
  modernRestoration <- lift (get_prop analysisResult "modernRestoration") ;;
  _ <- lift (get_prop modernRestoration "visualPrompt") ;;
  _ <- lift (get_prop analysisResult "curatorNarrative") ;;
  values <- lift (Promise_all [past; present; audio]) ;;
  _ <- setData (fun prev =>
         mkData (analysis prev) (values !! 0%nat) (values !! 1%nat)
           (originalImage prev) (values !! 2%nat)) ;;
  setStatus complete.

(** [try { ... } catch (err) { ... }] around a block. *)
Definition try_catch (block : Async State unit) (handler : JSVal -> Async State unit)
  : Async State unit :=
  fun st =>
    match block st with
    | (Ok tt, st') => (Ok tt, st')
    | (Throw err, st') => handler err st'
    end.

(** The generation stage with the handler's [catch] around it. *)
Definition generation_stage (analysisResult : JSVal)
    (past present audio : Settled string) : Async State unit :=
  try_catch (generation analysisResult past present audio) on_failure.

(** [reader.onload]: [analysisOutcome] is how [analyzeArtifact] settled. *)
Definition onload (base64 : string) (analysisOutcome : result JSVal)
    (past present audio : Settled string) : Async State unit :=
  _ <- setData (fun prev =>
         mkData (analysis prev) (pastImage prev) (presentImage prev)
           (Some base64) (audioBlob prev)) ;;
  try_catch
    (analysisResult <- lift analysisOutcome ;;
     _ <- setData (fun prev =>
            mkData analysisResult (pastImage prev) (presentImage prev)
              (originalImage prev) (audioBlob prev)) ;;
     generation analysisResult past present audio)
    on_failure.

End App.

(* ===================================================================== *)
(** ** App: narration playback *)
(* ===================================================================== *)

Module Player.

(** The playback state of the component: the flag, the audio context
    created on first use, and the buffer of the source that is playing. *)
Record State : Type := mkPlayer {
  isPlaying : bool;
  audioContextRef : option Audio.AudioContext;
  audioSourceRef : option Audio.AudioBuffer
}.

(** [stopAudio] *)
Definition stopAudio (st : State) : State :=
  mkPlayer false (audioContextRef st) None.

(** The [onended] callback of a started source. *)
Definition onended (st : State) : State :=
  mkPlayer false (audioContextRef st) None.

(** [decodeBase64]: the code units of [atob(base64)], one byte each. *)
Definition decodeBase64 (atob : string -> result string) (base64 : string)
  : result (list byte) :=
  match atob base64 with
  | Ok binaryString => Ok (byte_of_ascii <$> list_ascii_of_string binaryString)
  | Throw e => Throw e
  end.

(** [blob.includes(',') ? blob.split(',')[1] : blob] *)
Definition base64_of (blob : string) : string :=
  if includes blob "," then template (Gemini.split_comma_1 blob) else blob.

(** [playNarrative]: [newAudioContext] is how constructing a context at
    24000 Hz turns out, [audioBlob] the audio of the session.  Whatever
    throws inside the [try] only clears the flag. *)
Definition playNarrative (atob : string -> result string)
    (newAudioContext : result Audio.AudioContext) (audioBlob : option string)
    (st : State) : State :=
  if isPlaying st then stopAudio st
  else
    match audioBlob with
    | None => st
    | Some blob =>
        if String.eqb blob "" then st
        else
          match (match audioContextRef st with
                 | Some ctx => Ok ctx
                 | None => newAudioContext
                 end) with
          | Throw _ => mkPlayer false (audioContextRef st) (audioSourceRef st)
          | Ok ctx =>
              match decodeBase64 atob (base64_of blob) with
              | Throw _ => mkPlayer false (Some ctx) (audioSourceRef st)
              | Ok bytes =>
                  match Audio.decodeAudioData bytes ctx 24000 1 with
                  | Throw _ => mkPlayer false (Some ctx) (audioSourceRef st)
                  | Ok audioBuffer => mkPlayer true (Some ctx) (Some audioBuffer)
                  end
              end
          end
    end.

End Player.

(* ===================================================================== *)
(** ** App: the upload flow *)
(* ===================================================================== *)

Module UI.

Inductive ArtifactMode : Type := old | new.

(** A picked file, by what the FileReader makes of it: the data URL handed
    to [onload], or none when the read fails (no [onerror] is installed). *)
Record File : Type := mkFile {
  name : string;
  dataURL : option string
}.

(** What the collaborators answer while one file is processed: whether
    [window.aistudio] exists and how its key dialog settles, how
    [analyzeArtifact] settles, and how the three generation calls do. *)
Record Answers : Type := mkAnswers {
  aistudio : option (result unit);
  analysisOutcome : result JSVal;
  past : App.Settled string;
  present : App.Settled string;
  audio : App.Settled string
}.

Record State : Type := mkUI {
  artifactMode : ArtifactMode;
  showWarningModal : bool;
  pendingFile : option File;
  app : App.State;
  player : Player.State
}.

(** [handleOpenKeySelector] *)
Definition handleOpenKeySelector (studio : option (result unit))
  : Async App.State unit :=
  match studio with
  | None => ret tt
  | Some (Ok _) => App.setHasKey true
  | Some (Throw e) => throw e
  end.

(** [processFile] *)
Definition processFile (file : File) (answers : Answers) : Async App.State unit :=
  fun st =>
    if negb (App.hasKey st) then handleOpenKeySelector (aistudio answers) st
    else
      (_ <- App.setStatus App.analyzing ;;
       _ <- App.setError None ;;
       match dataURL file with
       | Some base64 =>
           App.onload base64 (analysisOutcome answers)
             (past answers) (present answers) (audio answers)
       | None => ret tt
       end) st.

(** [handleFileUpload]; the handlers start [processFile] and do not wait
    for it, so only its effect on the state is kept. *)
Definition handleFileUpload (file : option File) (answers : Answers)
    (st : State) : State :=
  match file with
  | None => st
  | Some f =>
      match artifactMode st with
      | new => mkUI new true (Some f) (app st) (player st)
      | old => mkUI old (showWarningModal st) (pendingFile st)
                 (snd (processFile f answers (app st))) (player st)
      end
  end.

(** [confirmUpload] *)
Definition confirmUpload (answers : Answers) (st : State) : State :=
  mkUI (artifactMode st) false None
    (match pendingFile st with
     | Some f => snd (processFile f answers (app st))
     | None => app st
     end)
    (player st).

(** [cancelUpload] *)
Definition cancelUpload (st : State) : State :=
  mkUI (artifactMode st) false None (app st) (player st).

(** [reset] *)
Definition reset (st : State) : State :=
  mkUI (artifactMode st) (showWarningModal st) (pendingFile st)
    (App.mkState App.idle (App.hasKey (app st))
       (App.mkData JNull None None None None) None)
    (Player.stopAudio (player st)).

End UI.

(* ===================================================================== *)
(** ** Vocabulary of the statements *)
(* ===================================================================== *)

(** How [withRetry] classifies a caught value: [Some true] transient,
    [Some false] not transient, [None] when the classifying expression
    itself throws. *)
Definition classify (error : JSVal) : option bool :=
  match isTransient error with
  | Ok t => Some (truthy t)
  | Throw _ => None
  end.

(** [TransientFailures fn errs s s']: started in remote state [s], the
    operation fails [length errs] times in a row, with the errors [errs],
    each classified transient, and leaves the remote state [s']. *)
Inductive TransientFailures {S T} (fn : S -> result T * S)
  : list JSVal -> S -> S -> Prop :=
| tf_nil s : TransientFailures fn [] s s
| tf_cons e errs s s1 s2 :
    fn s = (Throw e, s1) ->
    classify e = Some true ->
    TransientFailures fn errs s1 s2 ->
    TransientFailures fn (e :: errs) s s2.

(** The events of [k] failed attempts, each followed by its suspension. *)
Fixpoint backoff_events (k : nat) (delay : Z) : list Event :=
  match k with
  | O => []
  | S k' => Attempt :: Sleep delay :: backoff_events k' (delay * 2)
  end.

(** Number of calls of the operation, and the delays in order. *)
Fixpoint attempts (evs : list Event) : nat :=
  match evs with
  | [] => O
  | Attempt :: rest => S (attempts rest)
  | Sleep _ :: rest => attempts rest
  end.

Definition delays (evs : list Event) : list Z :=
  omap (fun e => match e with Sleep ms => Some ms | Attempt => None end) evs.

(** A scripted operation: each call consumes the next outcome. *)
Definition scripted {T} (script : list (result T)) : result T * list (result T) :=
  match script with
  | [] => (Throw (Error "script exhausted"), [])
  | r :: rest => (r, rest)
  end.

(** Spec side of the classification: a status or code in the 5xx range. *)
Definition is_5xx (v : JSVal) : bool :=
  match v with
  | JNum n => (500 <=? n) && (n <=? 599)
  | _ => false
  end.

Definition spec_5xx_failure (error : JSVal) : bool :=
  is_5xx (opt_get error "status") || is_5xx (opt_get error "code").

(** [message] holds [needle]: as a substring of a string, or as an element
    of an array that keeps the built-in [includes]. *)
Definition message_has (error : JSVal) (needle : string) : Prop :=
  (exists s a b, opt_get error "message" = JStr s /\ s = a ++ needle ++ b) \/
  (exists elems props, opt_get error "message" = JArr elems props /\
     own props "includes" = None /\ In (JStr needle) elems).

(** The messages on which [.includes] is not callable. *)
Definition message_without_includes (error : JSVal) : Prop :=
  match opt_get error "message" with
  | JBool _ | JNum _ | JObj _ => True
  | JArr _ props => own props "includes" <> None
  | _ => False
  end.

(** Sample errors. *)
Definition error_internal : JSVal := JObj [("status", JStr "INTERNAL")].
Definition error_500 : JSVal := Error "got status: 500 Internal Server Error".
Definition error_denied : JSVal :=
  JObj [("status", JNum 403); ("message", JStr "Permission denied")].

Definition error_503 : JSVal :=
  JObj [("status", JNum 503); ("code", JNum 503);
        ("message", JStr "Service Unavailable")].

(** A context with the limits that every implementation of the Web Audio
    interface has to support at least: 32 channels, rates from 8000 to
    96000 Hz. *)
Definition standard_context : Audio.AudioContext :=
  Audio.mkContext 32 8000 96000.

(** The arguments that [createBuffer] accepts from the decoder, apart from
    the frame count. *)
Definition supports (ctx : Audio.AudioContext) (rate : Z) (numChannels : nat) : Prop :=
  (1 <= numChannels <= Audio.maxChannels ctx)%nat /\
  Audio.minRate ctx <= rate <= Audio.maxRate ctx.

(** The first inline-data member among the parts, if any. *)
Definition first_inline (ps : list Gemini.Part) : option Gemini.Blob :=
  head (omap Gemini.inlineData ps).

(** Spec side of the sources: one entry per chunk that has a web citation,
    in order. *)
Definition cited (response : Gemini.GenerateContentResponse) : list JSVal :=
  match Gemini.candidate0 response ?> Gemini.groundingMetadata
        ?> Gemini.groundingChunks with
  | Some chunks => Gemini.GroundingSource <$> omap Gemini.web chunks
  | None => []
  end.

(** The members that the response schema of the analysis request lists as
    required. *)
Definition required_fields : list string :=
  ["identification"; "damageAnalysis"; "pastReconstruction"; "modernRestoration";
   "timeline"; "confidenceScore"; "confidenceExplanation"; "curatorNarrative"].

(** A remote side that answers every request from a script. *)
Definition scripted_remote
  : Gemini.Remote (list (result Gemini.GenerateContentResponse)) :=
  fun _ => scripted.

(** Sample responses. *)
Definition png_response : Gemini.GenerateContentResponse :=
  Gemini.mkResponse
    (Some [Gemini.mkCandidate
             (Some (Gemini.mkContent
                (Some [Gemini.mkPart (Some "Here is the image.") None;
                       Gemini.mkPart None
                         (Some (Gemini.mkBlob (Some "image/png") (Some "QUJD")))])))
             None])
    None.

Definition jpeg_response : Gemini.GenerateContentResponse :=
  Gemini.mkResponse
    (Some [Gemini.mkCandidate
             (Some (Gemini.mkContent
                (Some [Gemini.mkPart None
                         (Some (Gemini.mkBlob (Some "image/jpeg") (Some "/9j/4AAQ")))])))
             None])
    None.

Definition text_only_response : Gemini.GenerateContentResponse :=
  Gemini.mkResponse
    (Some [Gemini.mkCandidate
             (Some (Gemini.mkContent
                (Some [Gemini.mkPart (Some "I cannot draw this.") None])))
             None])
    (Some "I cannot draw this.").

Definition two_chunks : list Gemini.GroundingChunk :=
  [Gemini.mkChunk
     (Some (Gemini.mkWeb (Some "https://example.org/a") (Some "Indus seals")));
   Gemini.mkChunk (Some (Gemini.mkWeb (Some "https://example.org/b") None))].

Definition grounded_response (body : option string)
  : Gemini.GenerateContentResponse :=
  Gemini.mkResponse
    (Some [Gemini.mkCandidate None (Some (Gemini.mkMetadata (Some two_chunks)))])
    body.

Definition empty_response : Gemini.GenerateContentResponse :=
  Gemini.mkResponse None None.

(** *** A parser for a subset of JSON

    Used to instantiate [JSON.parse] on concrete texts: literals, integers,
    strings without escapes, arrays and objects.  On the texts it accepts
    it returns what [JSON.parse] returns; texts with fractions, exponents
    or escapes are outside the subset and are rejected. *)
Definition SyntaxError (msg : string) : JSVal :=
  JObj [("name", JStr "SyntaxError"); ("message", JStr msg)].

Definition quote : ascii := "034"%char.

Definition is_ws (c : ascii) : bool :=
  (Ascii.eqb c " " || Ascii.eqb c "009" || Ascii.eqb c "010" || Ascii.eqb c "013")%char.

Definition digit_of (c : ascii) : option Z :=
  let n := Z.of_nat (nat_of_ascii c) in
  if (48 <=? n) && (n <=? 57) then Some (n - 48) else None.

Fixpoint skip_ws (s : string) : string :=
  match s with
  | String c rest => if is_ws c then skip_ws rest else s
  | EmptyString => s
  end.

(** The characters up to the closing quote, and what follows it. *)
Fixpoint string_body (s : string) : option (string * string) :=
  match s with
  | EmptyString => None
  | String c rest =>
      if Ascii.eqb c quote then Some (EmptyString, rest)
      else if (Ascii.eqb c "\" || (nat_of_ascii c <? 32)%nat)%char then None
      else match string_body rest with
           | Some (body, after) => Some (String c body, after)
           | None => None
           end
  end.

Fixpoint more_digits (s : string) (acc : Z) : Z * string :=
  match s with
  | String c rest =>
      match digit_of c with
      | Some d => more_digits rest (acc * 10 + d)
      | None => (acc, s)
      end
  | EmptyString => (acc, s)
  end.

(** An integer without sign: a single 0, or digits that start with 1 to 9. *)
Definition unsigned_int (s : string) : option (Z * string) :=
  match s with
  | String c rest =>
      match digit_of c with
      | Some 0 => Some (0, rest)
      | Some d => Some (more_digits rest d)
      | None => None
      end
  | EmptyString => None
  end.

Definition expect (word : string) (v : JSVal) (s : string) : option (JSVal * string) :=
  if String.prefix word s
  then Some (v, substring (String.length word) (String.length s - String.length word) s)
  else None.

Fixpoint json_value (fuel : nat) (s : string) : option (JSVal * string) :=
  match fuel with
  | O => None
  | Datatypes.S fuel' =>
      match skip_ws s with
      | String c rest =>
          if Ascii.eqb c quote then
            match string_body rest with
            | Some (body, after) => Some (JStr body, after)
            | None => None
            end
          else if Ascii.eqb c "[" then
            match skip_ws rest with
            | String "]" after => Some (JArr [] [], after)
            | _ => json_elements fuel' rest []
            end
          else if Ascii.eqb c "{" then
            match skip_ws rest with
            | String "}" after => Some (JObj [], after)
            | _ => json_members fuel' rest []
            end
          else if Ascii.eqb c "-" then
            match unsigned_int rest with
            | Some (n, after) => Some (JNum (- n), after)
            | None => None
            end
          else if Ascii.eqb c "n" then expect "null" JNull (String c rest)
          else if Ascii.eqb c "t" then expect "true" (JBool true) (String c rest)
          else if Ascii.eqb c "f" then expect "false" (JBool false) (String c rest)
          else
            match unsigned_int (String c rest) with
            | Some (n, after) => Some (JNum n, after)
            | None => None
            end
      | EmptyString => None
      end
  end
with json_elements (fuel : nat) (s : string) (acc : list JSVal)
  : option (JSVal * string) :=
  match fuel with
  | O => None
  | Datatypes.S fuel' =>
      match json_value fuel' s with
      | Some (v, after) =>
          match skip_ws after with
          | String "," more => json_elements fuel' more (acc ++ [v])%list
          | String "]" more => Some (JArr (acc ++ [v])%list [], more)
          | _ => None
          end
      | None => None
      end
  end
with json_members (fuel : nat) (s : string) (acc : list (string * JSVal))
  : option (JSVal * string) :=
  match fuel with
  | O => None
  | Datatypes.S fuel' =>
      match skip_ws s with
      | String c rest =>
          if Ascii.eqb c quote then
            match string_body rest with
            | Some (key, after) =>
                match skip_ws after with
                | String ":" more =>
                    match json_value fuel' more with
                    | Some (v, after') =>
                        match skip_ws after' with
                        | String "," more' => json_members fuel' more' (put acc key v)
                        | String "}" more' => Some (JObj (put acc key v), more')
                        | _ => None
                        end
                    | None => None
                    end
                | _ => None
                end
            | None => None
            end
          else None
      | EmptyString => None
      end
  end.

Definition parse_json_subset (text : string) : result JSVal :=
  match json_value (Datatypes.S (String.length text)) text with
  | Some (v, after) =>
      match skip_ws after with
      | EmptyString => Ok v
      | _ => Throw (SyntaxError "Unexpected non-whitespace character after JSON")
      end
  | None => Throw (SyntaxError "Unexpected token in JSON")
  end.

(** [response.candidates?.[0]?.groundingMetadata?.groundingChunks] *)
Definition chunks_of (response : Gemini.GenerateContentResponse)
  : option (list Gemini.GroundingChunk) :=
  Gemini.candidate0 response ?> Gemini.groundingMetadata ?> Gemini.groundingChunks.

(** No part of the list has an [inlineData] member. *)
Definition no_inline (ps : list Gemini.Part) : Prop :=
  Forall (fun p => Gemini.inlineData p = None) ps.


(** Sample session state and generation outcomes. *)
Definition session : App.State :=
  App.mkState App.analyzing true
    (App.mkData
       (JObj [("pastReconstruction", JObj [("visualPrompt", JStr "whole vase")]);
              ("modernRestoration", JObj [("visualPrompt", JStr "vase on display")]);
              ("curatorNarrative", JStr "A vase.")])
       (Some "data:image/png;base64,OLD") None
       (Some "data:image/jpeg;base64,AAAA") None)
    None.

Definition past_ok : App.Settled string :=
  App.mkSettled (Ok "data:image/png;base64,QUJD") 5.
Definition present_ok : App.Settled string :=
  App.mkSettled (Ok "data:image/png;base64,REVG") 7.
Definition audio_failed : App.Settled string :=
  App.mkSettled (Throw (Error "Audio synthesis failed.")) 3.

(** [e] is the reason carried by the accumulator or by a rejected promise
    of the list. *)
Definition from_rejection {A} (acc : option (nat * JSVal))
    (ps : list (App.Settled A)) (e : JSVal) : Prop :=
  (exists t, acc = Some (t, e)) \/
  (exists p, In p ps /\ App.outcome p = Throw e).

(** The time spent suspended, in milliseconds. *)
Definition total_delay (evs : list Event) : Z :=
  foldr Z.add 0 (delays evs).

(** An error whose message is a number. *)
Definition error_numeric_message : JSVal :=
  JObj [("message", JNum 42)].

(** A response whose audio sits in the second part. *)
Definition audio_second_response : Gemini.GenerateContentResponse :=
  Gemini.mkResponse
    (Some [Gemini.mkCandidate
             (Some (Gemini.mkContent
                (Some [Gemini.mkPart (Some "Narration follows.") None;
                       Gemini.mkPart None
                         (Some (Gemini.mkBlob (Some "audio/L16") (Some "AEAAwA==")))])))
             None])
    None.

Definition audio_response : Gemini.GenerateContentResponse :=
  Gemini.mkResponse
    (Some [Gemini.mkCandidate
             (Some (Gemini.mkContent
                (Some [Gemini.mkPart None
                         (Some (Gemini.mkBlob (Some "audio/L16") (Some "AEAAwA==")))])))
             None])
    None.

(** A parser that rejects every text and quotes it in the message of its
    error, as engines do. *)
Definition parse_quoting (text : string) : result JSVal :=
  Throw (SyntaxError ("Unexpected token in JSON: " ++ text)).

Definition text_response (body : string) : Gemini.GenerateContentResponse :=
  Gemini.mkResponse None (Some body).

(** The patterns that the [catch] block looks for in the lowered message. *)
Definition credential_pattern (low : string) : bool :=
  includes low "permission" || includes low "403" || includes low "not found".

Definition transient_pattern (low : string) : bool :=
  includes low "500" || includes low "internal".

Definition nullish (v : JSVal) : bool :=
  match v with
  | JUndefined | JNull => true
  | _ => false
  end.

(** The analysis has the two members from which the image prompts are
    read. *)
Definition has_prompts (analysisResult : JSVal) : Prop :=
  nullish analysisResult = false /\
  nullish (opt_get analysisResult "pastReconstruction") = false /\
  nullish (opt_get analysisResult "modernRestoration") = false.

Definition error_quota : JSVal :=
  Error "Permission denied: quota tier 500 exceeded".

Definition past_failed_late : App.Settled string :=
  App.mkSettled (Throw (Error "Visual synthesis failed. The fragment might be too complex.")) 8.

(** *** A base64 decoder

    Used to instantiate [atob] on concrete texts.  It follows the
    forgiving-base64 decoding of the HTML standard: ASCII whitespace is
    dropped, padding of a length that is a multiple of 4 is removed, a
    remaining length of 1 modulo 4 or a character outside the alphabet is
    an error, and leftover bits are discarded. *)
Definition InvalidCharacterError (msg : string) : JSVal :=
  JObj [("name", JStr "InvalidCharacterError"); ("message", JStr msg)].

Definition b64_value (c : ascii) : option N :=
  let n := N_of_ascii c in
  if ((65 <=? n) && (n <=? 90))%N then Some (n - 65)%N
  else if ((97 <=? n) && (n <=? 122))%N then Some (n - 71)%N
  else if ((48 <=? n) && (n <=? 57))%N then Some (n + 4)%N
  else if (n =? 43)%N then Some 62%N
  else if (n =? 47)%N then Some 63%N
  else None.

Definition b64_space (c : ascii) : bool :=
  let n := N_of_ascii c in
  ((n =? 9) || (n =? 10) || (n =? 12) || (n =? 13) || (n =? 32))%N.

Definition strip_padding (cs : list ascii) : list ascii :=
  if (length cs mod 4 =? 0)%nat then
    match rev cs with
    | "="%char :: "="%char :: front => rev front
    | "="%char :: front => rev front
    | _ => cs
    end
  else cs.

Fixpoint b64_values (cs : list ascii) : option (list N) :=
  match cs with
  | [] => Some []
  | c :: rest =>
      match b64_value c, b64_values rest with
      | Some v, Some vs => Some (v :: vs)
      | _, _ => None
      end
  end.

Fixpoint b64_bytes (vs : list N) : list ascii :=
  match vs with
  | a :: b :: c :: d :: rest =>
      let n := (a * 262144 + b * 4096 + c * 64 + d)%N in
      ascii_of_N (n / 65536) :: ascii_of_N ((n / 256) mod 256)
        :: ascii_of_N (n mod 256) :: b64_bytes rest
  | [a; b; c] =>
      let n := (a * 4096 + b * 64 + c)%N in
      [ascii_of_N (n / 1024); ascii_of_N ((n / 4) mod 256)]
  | [a; b] => [ascii_of_N ((a * 64 + b) / 16)]
  | _ => []
  end.

Definition atob_model (text : string) : result string :=
  let cs := strip_padding
              (List.filter (fun c => negb (b64_space c)) (list_ascii_of_string text)) in
  if (length cs mod 4 =? 1)%nat
  then Throw (InvalidCharacterError "The string to be decoded is not correctly encoded.")
  else
    match b64_values cs with
    | Some vs => Ok (string_of_list_ascii (b64_bytes vs))
    | None =>
        Throw (InvalidCharacterError "The string to be decoded is not correctly encoded.")
    end.

(** Sample playback and upload data. *)
Definition silent : Player.State := Player.mkPlayer false None None.

Definition vase_photo : UI.File :=
  UI.mkFile "vase.jpg" (Some "data:image/jpeg;base64,BBBB").

Definition answers_ok : UI.Answers :=
  UI.mkAnswers (Some (Ok tt)) (Ok (App.analysis (App.data session)))
    past_ok present_ok (App.mkSettled (Ok "AEAAwA==") 9).

Definition screen (mode : UI.ArtifactMode) (keyed : bool) : UI.State :=
  UI.mkUI mode false None
    (App.mkState App.idle keyed (App.data session) (Some "previous failure"))
    silent.

(** The errors that the wrapper is written to retry: a status that is
    exactly the string INTERNAL, a code that is exactly the number 500, or
    a string message that contains 500. *)
Definition recognised (error : JSVal) : Prop :=
  opt_get error "status" = JStr "INTERNAL" \/
  opt_get error "code" = JNum 500 \/
  exists s, opt_get error "message" = JStr s /\ includes s "500" = true.

(** The message of the error is absent or a string. *)
Definition plain_message (error : JSVal) : Prop :=
  match opt_get error "message" with
  | JUndefined | JNull | JStr _ => True
  | _ => False
  end.

(** [RecognisedFailures fn errs s s']: started in remote state [s], the
    operation fails [length errs] times in a row, with the errors [errs],
    each of them [recognised], and leaves the remote state [s']. *)
Inductive RecognisedFailures {S T} (fn : S -> result T * S)
  : list JSVal -> S -> S -> Prop :=
| rf_nil s : RecognisedFailures fn [] s s
| rf_cons e errs s s1 s2 :
    fn s = (Throw e, s1) ->
    recognised e ->
    RecognisedFailures fn errs s1 s2 ->
    RecognisedFailures fn (e :: errs) s s2.

(** A response whose first inline part has no data, before one that has. *)
Definition dataless_response : Gemini.GenerateContentResponse :=
  Gemini.mkResponse
    (Some [Gemini.mkCandidate
             (Some (Gemini.mkContent
                (Some [Gemini.mkPart None
                         (Some (Gemini.mkBlob (Some "image/png") None));
                       Gemini.mkPart None
                         (Some (Gemini.mkBlob (Some "image/png") (Some "QUJD")))])))
             None])
    None.

(** A server error whose message is a number. *)
Definition error_code_500 : JSVal :=
  JObj [("code", JNum 500); ("message", JNum 42)].

(* ===================================================================== *)
(** ** Strings and events: basic facts *)
(* ===================================================================== *)

Lemma prefix_app (needle s : string) :
  String.prefix needle s = true <-> exists b, s = needle ++ b.
Proof.
  revert s. induction needle as [|c needle IH]; intros s; simpl.
  - split; [intros _; exists s; reflexivity | intros _; destruct s; reflexivity].
  - destruct s as [|d s]; simpl.
    + split; [discriminate | intros [b Hb]; discriminate].
    + destruct (ascii_dec c d) as [->|Hne].
      * rewrite IH. split; intros [b Hb]; exists b; congruence.
      * split; [discriminate | intros [b Hb]; congruence].
Qed.

Lemma includes_app (s needle : string) :
  includes s needle = true <-> exists a b, s = a ++ needle ++ b.
Proof.
  induction s as [|c s IH]; cbn [includes].
  - rewrite orb_false_r, prefix_app. split.
    + intros [b Hb]. exists "", b. exact Hb.
    + intros (a & b & Hab). destruct a; [exists b; exact Hab|discriminate].
  - rewrite orb_true_iff, prefix_app, IH. split.
    + intros [[b Hb]|(a & b & Hab)].
      * exists "", b. exact Hb.
      * exists (String c a), b. simpl. congruence.
    + intros (a & b & Hab). destruct a as [|d a].
      * left. exists b. exact Hab.
      * right. exists a, b. simpl in Hab. congruence.
Qed.

Lemma existsb_strict_eq_str (elems : list JSVal) (needle : string) :
  existsb (fun x => strict_eq_str x needle) elems = true <-> In (JStr needle) elems.
Proof.
  rewrite existsb_exists. split.
  - intros (x & Hin & Hx). destruct x; simpl in Hx; try discriminate.
    apply String.eqb_eq in Hx. subst. exact Hin.
  - intros Hin. exists (JStr needle). split; [exact Hin|]. simpl.
    apply String.eqb_refl.
Qed.

Lemma strict_eq_str_iff (v : JSVal) (lit : string) :
  strict_eq_str v lit = true <-> v = JStr lit.
Proof.
  destruct v; simpl; try (split; [discriminate|intros H; discriminate]).
  rewrite String.eqb_eq. split; congruence.
Qed.

Lemma strict_eq_num_iff (v : JSVal) (n : Z) :
  strict_eq_num v n = true <-> v = JNum n.
Proof.
  destruct v; simpl; try (split; [discriminate|intros H; discriminate]).
  rewrite Z.eqb_eq. split; congruence.
Qed.

Lemma attempts_app (a b : list Event) :
  attempts (a ++ b) = (attempts a + attempts b)%nat.
Proof.
  induction a as [|[|ms] a IH]; simpl; [reflexivity| |]; rewrite IH; reflexivity.
Qed.

Lemma attempts_backoff (k : nat) (delay : Z) :
  attempts (backoff_events k delay) = k.
Proof.
  revert delay. induction k as [|k IH]; intros delay; simpl;
    [reflexivity | rewrite IH; reflexivity].
Qed.

Lemma delays_app (a b : list Event) :
  delays (a ++ b) = (delays a ++ delays b)%list.
Proof. unfold delays. apply omap_app. Qed.

Lemma length_delays_backoff (k : nat) (delay : Z) :
  length (delays (backoff_events k delay)) = k.
Proof.
  revert delay. induction k as [|k IH]; intros delay; simpl;
    [reflexivity | f_equal; apply IH].
Qed.

Lemma delays_backoff_lookup (k i : nat) (delay : Z) :
  (i < k)%nat ->
  delays (backoff_events k delay) !! i = Some (delay * 2 ^ Z.of_nat i).
Proof.
  revert i delay. induction k as [|k IH]; intros i delay Hi; [lia|].
  destruct i as [|i]; simpl.
  - f_equal. lia.
  - change (delays (backoff_events k (delay * 2)) !! i
            = Some (delay * 2 ^ Z.of_nat (S i))).
    rewrite IH by lia. f_equal.
    rewrite Nat2Z.inj_succ, Z.pow_succ_r by lia. lia.
Qed.

(* ===================================================================== *)
(** ** withRetry *)
(* ===================================================================== *)

Section Retry.
Context {S T : Type} (fn : S -> result T * S).

Lemma withRetry_ok retries delay s ev v s' :
  fn s = (Ok v, s') ->
  withRetry fn retries delay (mkWorld s ev)
  = (Ok v, mkWorld s' (ev ++ [Attempt])).
Proof. intros Hfn. destruct retries; simpl; rewrite Hfn; reflexivity. Qed.

Lemma withRetry_transient retries delay s ev e s' :
  fn s = (Throw e, s') ->
  classify e = Some true ->
  withRetry fn (Datatypes.S retries) delay (mkWorld s ev)
  = withRetry fn retries (delay * 2)
      (mkWorld s' (ev ++ [Attempt; Sleep delay])).
Proof.
  intros Hfn Hc. unfold classify in Hc. simpl. rewrite Hfn.
  destruct (isTransient e) as [t|]; [|discriminate].
  injection Hc as ->. unfold log. simpl. rewrite <- app_assoc. reflexivity.
Qed.

Lemma withRetry_exhausted delay s ev e s' :
  fn s = (Throw e, s') ->
  classify e = Some true ->
  withRetry fn 0 delay (mkWorld s ev)
  = (Throw e, mkWorld s' (ev ++ [Attempt])).
Proof.
  intros Hfn Hc. unfold classify in Hc. simpl. rewrite Hfn.
  destruct (isTransient e); [reflexivity|discriminate].
Qed.

Lemma withRetry_permanent retries delay s ev e s' :
  fn s = (Throw e, s') ->
  classify e = Some false ->
  withRetry fn retries delay (mkWorld s ev)
  = (Throw e, mkWorld s' (ev ++ [Attempt])).
Proof.
  intros Hfn Hc. unfold classify in Hc.
  destruct retries; simpl; rewrite Hfn;
    destruct (isTransient e) as [t|]; try discriminate; try reflexivity.
  injection Hc as ->. reflexivity.
Qed.

(** [k] transient failures within the retry budget consume [k] retries,
    double the delay [k] times and leave the matching events. *)
Lemma withRetry_steps errs : forall retries delay s s' ev,
  TransientFailures fn errs s s' ->
  (length errs <= retries)%nat ->
  withRetry fn retries delay (mkWorld s ev)
  = withRetry fn (retries - length errs) (delay * 2 ^ Z.of_nat (length errs))
      (mkWorld s' (ev ++ backoff_events (length errs) delay)).
Proof.
  induction errs as [|e errs IH]; intros retries delay s s' ev Hrun Hle.
  - inversion Hrun; subst. simpl.
    rewrite Nat.sub_0_r, Z.mul_1_r, app_nil_r. reflexivity.
  - inversion Hrun as [|e' errs' s0 s1 s2 Hfn Hc Hrest]; subst.
    simpl in Hle. destruct retries as [|retries]; [lia|].
    rewrite (withRetry_transient _ _ _ _ _ _ Hfn Hc).
    rewrite (IH retries (delay * 2) s1 s' _ Hrest) by lia.
    cbn [length backoff_events]. rewrite <- app_assoc. cbn [app].
    replace (delay * 2 * 2 ^ Z.of_nat (length errs))
      with (delay * 2 ^ Z.of_nat (Datatypes.S (length errs)))
      by (rewrite Nat2Z.inj_succ, Z.pow_succ_r by lia; lia).
    reflexivity.
Qed.

Lemma TransientFailures_snoc errs e s s2 :
  TransientFailures fn (errs ++ [e]) s s2 ->
  exists s1, TransientFailures fn errs s s1 /\ fn s1 = (Throw e, s2)
             /\ classify e = Some true.
Proof.
  revert s. induction errs as [|x errs IH]; intros s Hrun; simpl in Hrun.
  - inversion Hrun as [|? ? ? ? ? Hfn Hc Hrest]; subst.
    inversion Hrest; subst. exists s. repeat split; [constructor|exact Hfn|exact Hc].
  - inversion Hrun as [|? ? ? sm ? Hfn Hc Hrest]; subst.
    destruct (IH sm Hrest) as (s1' & Hr & Hf & Hcl).
    exists s1'. repeat split; [econstructor; eassumption|exact Hf|exact Hcl].
Qed.

(** Whatever [withRetry] returns as a success is the value of one call of
    the operation. *)
Lemma withRetry_ok_inv retries : forall delay w v w',
  withRetry fn retries delay w = (Ok v, w') ->
  exists s, fn s = (Ok v, remote w').
Proof.
  induction retries as [|retries IH]; intros delay w v w'; simpl;
    destruct (fn (remote w)) as [[x|e] s1] eqn:Hfn.
  - intros [= <- <-]. exists (remote w). exact Hfn.
  - destruct (isTransient e); discriminate.
  - intros [= <- <-]. exists (remote w). exact Hfn.
  - destruct (isTransient e) as [t|]; [|discriminate].
    destruct (truthy t); [|discriminate]. apply IH.
Qed.

End Retry.

Lemma recognised_classify (error : JSVal) :
  recognised error -> classify error = Some true.
Proof.
  unfold classify, isTransient. intros [Hs|[Hc|(m & Hm & Hi)]].
  - rewrite Hs. reflexivity.
  - destruct (strict_eq_str (opt_get error "status") "INTERNAL"); [reflexivity|].
    rewrite Hc. reflexivity.
  - destruct (strict_eq_str (opt_get error "status") "INTERNAL"); [reflexivity|].
    destruct (strict_eq_num (opt_get error "code") 500); [reflexivity|].
    unfold message_includes. rewrite Hm. simpl. rewrite Hi. reflexivity.
Qed.

Lemma plain_classify (error : JSVal) :
  plain_message error -> ~ recognised error -> classify error = Some false.
Proof.
  unfold classify, isTransient, plain_message. intros Hplain Hnot.
  destruct (strict_eq_str (opt_get error "status") "INTERNAL") eqn:Es.
  { exfalso. apply Hnot. left. apply strict_eq_str_iff. exact Es. }
  destruct (strict_eq_num (opt_get error "code") 500) eqn:Ec.
  { exfalso. apply Hnot. right. left. apply strict_eq_num_iff. exact Ec. }
  unfold message_includes.
  destruct (opt_get error "message") as [| |b|n|m|elems props|props] eqn:Hm;
    try contradiction; try reflexivity.
  simpl. destruct (includes m "500") eqn:Hi; [|reflexivity].
  exfalso. apply Hnot. right. right. exists m. split; [exact Hm|exact Hi].
Qed.

Lemma classify_recognised (error : JSVal) :
  plain_message error -> classify error = Some true -> recognised error.
Proof.
  unfold classify, isTransient, plain_message. intros Hplain.
  destruct (strict_eq_str (opt_get error "status") "INTERNAL") eqn:Es.
  { intros _. left. apply strict_eq_str_iff. exact Es. }
  destruct (strict_eq_num (opt_get error "code") 500) eqn:Ec.
  { intros _. right. left. apply strict_eq_num_iff. exact Ec. }
  unfold message_includes.
  destruct (opt_get error "message") as [| |b|n|m|elems props|props] eqn:Hm;
    try contradiction; try discriminate.
  simpl. destruct (includes m "500") eqn:Hi; [|discriminate].
  intros _. right. right. exists m. split; [exact Hm|exact Hi].
Qed.

Lemma RecognisedFailures_transient {S T} (fn : S -> result T * S) errs s s' :
  RecognisedFailures fn errs s s' -> TransientFailures fn errs s s'.
Proof.
  induction 1 as [|e errs s0 s1 s2 Hfn Hrec _ IH]; [constructor|].
  econstructor; [exact Hfn|exact (recognised_classify e Hrec)|exact IH].
Qed.

(** C1, as the code has it.  An operation that fails exactly [k] times,
    with [k] at most the retry count, each time with an error that the
    wrapper retries (its status is exactly the string INTERNAL, or its code
    exactly the number 500, or its message a string containing 500), and
    then succeeds: [withRetry] returns the success value; the operation was
    called [k + 1] times (the events are [k] failed attempts, each followed
    by its suspension, then the successful attempt, and the remote state is
    the one after the successful call); the delay before retry attempt [i]
    is [delay * 2^(i-1)].  The defaults are 2 retries and 1000 ms. *)
Theorem withRetry_recovers {S T} (fn : S -> result T * S)
    (retries : nat) (delay : Z) (errs : list JSVal) (s s1 s2 : S) (v : T)
    (ev : list Event) :
  RecognisedFailures fn errs s s1 ->
  fn s1 = (Ok v, s2) ->
  (length errs <= retries)%nat ->
  let k := length errs in
  exists tr,
    withRetry fn retries delay (mkWorld s ev) = (Ok v, mkWorld s2 (ev ++ tr)) /\
    tr = (backoff_events k delay ++ [Attempt])%list /\
    attempts tr = (k + 1)%nat /\
    length (delays tr) = k /\
    (forall i, (1 <= i <= k)%nat ->
       delays tr !! (i - 1)%nat = Some (delay * 2 ^ Z.of_nat (i - 1))) /\
    withRetry_default fn = withRetry fn 2 1000.
Proof.
  intros Hrec Hok Hle k.
  pose proof (RecognisedFailures_transient fn errs s s1 Hrec) as Hrun.
  exists (backoff_events k delay ++ [Attempt])%list.
  split; [|split; [reflexivity|split; [|split; [|split]]]].
  - rewrite (withRetry_steps fn errs retries delay s s1 ev Hrun Hle).
    rewrite (withRetry_ok fn _ _ _ _ _ _ Hok), <- app_assoc. reflexivity.
  - rewrite attempts_app, attempts_backoff. reflexivity.
  - rewrite delays_app, length_app, length_delays_backoff. simpl. lia.
  - intros i Hi. rewrite delays_app, lookup_app_l.
    + apply delays_backoff_lookup. lia.
    + rewrite length_delays_backoff. lia.
  - reflexivity.
Qed.

Lemma withRetry_recovers_witness :
  exists tr,
    withRetry (@scripted string) 2 1000
      (mkWorld [Throw error_internal; Throw error_500; Ok "done"] [])
    = (Ok "done", mkWorld [] ([] ++ tr)) /\
    tr = [Attempt; Sleep 1000; Attempt; Sleep 2000; Attempt] /\
    attempts tr = 3%nat /\
    length (delays tr) = 2%nat /\
    (forall i, (1 <= i <= 2)%nat ->
       delays tr !! (i - 1)%nat = Some (1000 * 2 ^ Z.of_nat (i - 1))) /\
    withRetry_default (@scripted string) = withRetry (@scripted string) 2 1000.
Proof.
  apply (withRetry_recovers (@scripted string) 2 1000 [error_internal; error_500]
           [Throw error_internal; Throw error_500; Ok "done"] [Ok "done"] []
           "done" []).
  - apply (rf_cons _ error_internal [error_500] _ [Throw error_500; Ok "done"] _);
      [reflexivity | left; reflexivity |].
    apply (rf_cons _ error_500 [] _ [Ok "done"] _);
      [reflexivity
      | right; right; exists "got status: 500 Internal Server Error";
        split; reflexivity |].
    apply rf_nil.
  - reflexivity.
  - simpl. lia.
Defined.

(** C1 as stated fails: an error with status and code 503 is a server-side
    5xx failure, and an operation that fails once with it and would then
    succeed is not called again; the wrapper raises the error after one
    call. *)
Lemma withRetry_503_then_success :
  spec_5xx_failure error_503 = true /\
  withRetry (@scripted string) 2 1000 (mkWorld [Throw error_503; Ok "done"] [])
  = (Throw error_503, mkWorld [Ok "done"] [Attempt]).
Proof. split; reflexivity. Qed.

(** C2, as the code has it.  (a) An operation whose first [retries + 1]
    calls all fail with errors that the wrapper retries (status exactly
    INTERNAL, code exactly 500, or a string message containing 500):
    [withRetry] raises the last of these errors, unchanged, after exactly
    [retries + 1] attempts.  (b) An operation whose first call fails with
    any other error whose message is absent or a string, an error with
    another 5xx status among them: [withRetry] raises that error, unchanged,
    after exactly 1 attempt and without suspending. *)
Theorem withRetry_gives_up {S T} (fn : S -> result T * S)
    (retries : nat) (delay : Z) (ev : list Event) :
  (forall errs e s s',
     RecognisedFailures fn (errs ++ [e]) s s' ->
     length errs = retries ->
     exists tr,
       withRetry fn retries delay (mkWorld s ev) = (Throw e, mkWorld s' (ev ++ tr)) /\
       attempts tr = (retries + 1)%nat) /\
  (forall e s s',
     fn s = (Throw e, s') ->
     plain_message e ->
     ~ recognised e ->
     withRetry fn retries delay (mkWorld s ev)
     = (Throw e, mkWorld s' (ev ++ [Attempt])) /\
     attempts [Attempt] = 1%nat /\ delays [Attempt] = []).
Proof.
  split.
  - intros errs e s s' Hrec Hlen.
    pose proof (RecognisedFailures_transient fn _ s s' Hrec) as Hrun.
    destruct (TransientFailures_snoc fn errs e s s' Hrun) as (s1 & Hr & Hfn & Hc).
    exists (backoff_events retries delay ++ [Attempt])%list. split.
    + rewrite (withRetry_steps fn errs retries delay s s1 ev Hr) by lia.
      rewrite Hlen, Nat.sub_diag.
      rewrite (withRetry_exhausted fn _ _ _ _ _ Hfn Hc), <- app_assoc. reflexivity.
    + rewrite attempts_app, attempts_backoff. reflexivity.
  - intros e s s' Hfn Hplain Hnot. split; [|split; reflexivity].
    apply withRetry_permanent; [exact Hfn|exact (plain_classify e Hplain Hnot)].
Qed.

Lemma withRetry_gives_up_witness :
  (exists tr,
     withRetry (@scripted string) 2 1000
       (mkWorld [Throw error_500; Throw error_internal; Throw error_500; Ok "late"] [])
     = (Throw error_500, mkWorld [Ok "late"] ([] ++ tr)) /\
     attempts tr = 3%nat) /\
  (withRetry (@scripted string) 2 1000 (mkWorld [Throw error_503; Ok "late"] [])
   = (Throw error_503, mkWorld [Ok "late"] ([] ++ [Attempt])) /\
   attempts [Attempt] = 1%nat /\ delays [Attempt] = []).
Proof.
  assert (H500 : recognised error_500)
    by (right; right; exists "got status: 500 Internal Server Error";
        split; reflexivity).
  split.
  - apply (proj1 (withRetry_gives_up (@scripted string) 2 1000 [])
             [error_500; error_internal] error_500).
    + apply (rf_cons _ error_500 _ _ [Throw error_internal; Throw error_500; Ok "late"] _);
        [reflexivity | exact H500 |].
      apply (rf_cons _ error_internal _ _ [Throw error_500; Ok "late"] _);
        [reflexivity | left; reflexivity |].
      apply (rf_cons _ error_500 _ _ [Ok "late"] _); [reflexivity | exact H500 |].
      apply rf_nil.
    + reflexivity.
  - apply (proj2 (withRetry_gives_up (@scripted string) 2 1000 [])
             error_503).
    + reflexivity.
    + exact I.
    + intros [H|[H|(m & Hm & Hi)]]; try discriminate.
      injection Hm as <-. discriminate.
Defined.

(** C2 as stated fails: an operation that keeps failing with the 5xx error
    of status 503 is not called [retries + 1] = 3 times; the wrapper raises
    after the first call. *)
Lemma withRetry_503_three_times :
  spec_5xx_failure error_503 = true /\
  withRetry (@scripted string) 2 1000
    (mkWorld [Throw error_503; Throw error_503; Throw error_503] [])
  = (Throw error_503, mkWorld [Throw error_503; Throw error_503] [Attempt]) /\
  attempts [Attempt] = 1%nat.
Proof. repeat split. Qed.

(** The classifying expression, by cases of its result. *)
Lemma isTransient_cases (error : JSVal) :
  match isTransient error with
  | Ok t =>
      truthy t = true <->
      (opt_get error "status" = JStr "INTERNAL" \/
       opt_get error "code" = JNum 500 \/
       message_has error "500")
  | Throw _ =>
      opt_get error "status" <> JStr "INTERNAL" /\
      opt_get error "code" <> JNum 500 /\
      message_without_includes error
  end.
Proof.
  unfold isTransient.
  destruct (strict_eq_str (opt_get error "status") "INTERNAL") eqn:Hs.
  { simpl. apply strict_eq_str_iff in Hs. tauto. }
  destruct (strict_eq_num (opt_get error "code") 500) eqn:Hc.
  { simpl. apply strict_eq_num_iff in Hc. tauto. }
  assert (Hs' : opt_get error "status" <> JStr "INTERNAL")
    by (intros H; apply strict_eq_str_iff in H; congruence).
  assert (Hc' : opt_get error "code" <> JNum 500)
    by (intros H; apply strict_eq_num_iff in H; congruence).
  unfold message_includes, message_has, message_without_includes.
  destruct (opt_get error "message") as [| |b|n|s|elems props|props] eqn:Hm.
  - simpl. split; [discriminate|].
    intros [?|[?|[(s & a & b & H & _)|(el & pr & H & _)]]]; congruence.
  - simpl. split; [discriminate|].
    intros [?|[?|[(s & a & b & H & _)|(el & pr & H & _)]]]; congruence.
  - tauto.
  - tauto.
  - simpl. rewrite includes_app. split.
    + intros (a & b & Hab). right. right. left. exists s, a, b. tauto.
    + intros [?|[?|[(s0 & a & b & H & Hab)|(el & pr & H & _)]]]; try congruence.
      injection H as ->. exists a, b. exact Hab.
  - destruct (own props "includes") eqn:Hown.
    + repeat split; try assumption. congruence.
    + simpl. rewrite existsb_strict_eq_str. split.
      * intros Hin. right. right. right. exists elems, props. tauto.
      * intros [?|[?|[(s0 & a & b & H & Hab)|(el & pr & H & _ & Hin)]]];
          congruence.
  - tauto.
Qed.


(** C3, as the code has it.  (a) Every error whose status is exactly the
    string INTERNAL, or whose code is exactly the number 500, or whose
    message is a string containing 500, is classified as transient.  (b)
    Among the errors whose message is absent or a string these are the only
    ones: such an error is classified as transient if and only if one of
    the three holds, and as not transient otherwise.  (c) In particular a
    numeric status, 502 or 503 as much as any other, does not make an error
    transient: with a code other than 500 and a message without 500 it is
    classified as not transient. *)
Theorem transient_classification :
  (forall error, recognised error -> classify error = Some true) /\
  (forall error, plain_message error ->
     (classify error = Some true <-> recognised error) /\
     (~ recognised error -> classify error = Some false)) /\
  (forall error n,
     plain_message error ->
     opt_get error "status" = JNum n ->
     opt_get error "code" <> JNum 500 ->
     (forall m, opt_get error "message" = JStr m -> includes m "500" = false) ->
     classify error = Some false).
Proof.
  split; [exact recognised_classify|]. split.
  - intros error Hplain. split; [split|].
    + apply classify_recognised. exact Hplain.
    + apply recognised_classify.
    + apply plain_classify. exact Hplain.
  - intros error n Hplain Hs Hc Hm. apply plain_classify; [exact Hplain|].
    intros [H|[H|(m & Hmsg & Hi)]]; [congruence|contradiction|].
    rewrite (Hm m Hmsg) in Hi. discriminate.
Qed.

Lemma transient_classification_witness :
  classify error_internal = Some true /\
  (classify error_500 = Some true <-> recognised error_500) /\
  classify error_denied = Some false /\
  classify error_503 = Some false.
Proof.
  destruct transient_classification as (Ha & Hb & Hc).
  split; [apply Ha; left; reflexivity|]. split; [apply (Hb error_500 I)|]. split.
  - apply (Hb error_denied I).
    intros [H|[H|(m & Hm & Hi)]]; try discriminate.
    injection Hm as <-. discriminate.
  - apply (Hc error_503 503); [exact I|reflexivity|discriminate|].
    intros m [= <-]. reflexivity.
Defined.

(** C3 as stated fails: an error whose status and code are 503 lies in the
    5xx range and is classified as not transient. *)
Lemma status_503_not_transient :
  spec_5xx_failure error_503 = true /\ classify error_503 = Some false.
Proof. split; reflexivity. Qed.

(* ===================================================================== *)
(** ** decodeAudioData *)
(* ===================================================================== *)

Section Decoder.
Import Audio.

Lemma length_int16_view : forall bytes : list byte,
  length (int16_view bytes) = Nat.div2 (length bytes).
Proof.
  fix IH 1. intros [|lo [|hi rest]]; [reflexivity..|].
  cbn [int16_view length Nat.div2]. f_equal. apply IH.
Qed.

(** The bound of the inner loop: [i < frameCount] holds exactly for the
    first [Qceiling frameCount] naturals. *)
Lemma loop_bound (frameCount : Q) (i : nat) :
  (i < Z.to_nat (Qceiling frameCount))%nat <->
  (inject_Z (Z.of_nat i) < frameCount)%Q.
Proof.
  split.
  - intros Hi. apply Qle_lt_trans with (inject_Z (Qceiling frameCount - 1));
      [|apply Qceiling_lt].
    rewrite <- Zle_Qle. lia.
  - intros Hi.
    assert (H : (inject_Z (Z.of_nat i) < inject_Z (Qceiling frameCount))%Q)
      by (eapply Qlt_le_trans; [exact Hi | apply Qle_ceiling]).
    rewrite <- Zlt_Qlt in H. lia.
Qed.

Lemma floor_frames (len numChannels : nat) :
  (1 <= numChannels)%nat ->
  Qfloor (Z.of_nat len # Pos.of_nat numChannels)
  = Z.of_nat (len / numChannels).
Proof.
  intros Hn. unfold Qfloor.
  rewrite <- positive_nat_Z, Nat2Pos.id by lia.
  symmetry. apply Nat2Z.inj_div.
Qed.

Lemma ceiling_frames (len numChannels : nat) :
  (1 <= numChannels)%nat ->
  (len / numChannels <= Z.to_nat (Qceiling (Z.of_nat len # Pos.of_nat numChannels)))%nat.
Proof.
  intros Hn.
  pose proof (Qle_ceiling (Z.of_nat len # Pos.of_nat numChannels)) as Hc.
  pose proof (Qfloor_le (Z.of_nat len # Pos.of_nat numChannels)) as Hf.
  pose proof (Qle_trans _ _ _ Hf Hc) as H. rewrite <- Zle_Qle in H.
  rewrite floor_frames in H by exact Hn. lia.
Qed.

(** The stores of one pass of the inner loop. *)
Lemma fill_stores (v : nat -> Float) (n : nat) (cd : list Float) :
  let r := fold_left (fun cd i => <[i := v i]> cd) (seq 0 n) cd in
  length r = length cd /\
  forall f, (f < length cd)%nat ->
    r !! f = if (f <? n)%nat then Some (v f) else cd !! f.
Proof.
  induction n as [|n IH]; cbv zeta in *.
  - split; [reflexivity|]. intros f _. reflexivity.
  - rewrite seq_S, fold_left_app. cbn [fold_left Nat.add].
    destruct IH as [Hlen Hget].
    split; [rewrite length_insert; exact Hlen|].
    intros f Hf. destruct (Nat.eq_dec n f) as [->|Hne].
    + rewrite list_lookup_insert_eq by lia.
      destruct (Nat.ltb_spec f (Datatypes.S f)); [reflexivity|lia].
    + rewrite list_lookup_insert_ne by exact Hne. rewrite Hget by exact Hf.
      destruct (Nat.ltb_spec f n), (Nat.ltb_spec f (Datatypes.S n));
        try reflexivity; lia.
Qed.

(** The outer loop rewrites channel [c] with [g c], for each [c] below
    the bound. *)
Lemma outer_loop (g : nat -> list Float -> list Float) (n : nat) (b : AudioBuffer) :
  let r := fold_left
             (fun buf c => mkBuffer (sampleRate buf) (alter (g c) c (channels buf)))
             (seq 0 n) b in
  sampleRate r = sampleRate b /\
  length (channels r) = length (channels b) /\
  forall c, channels r !! c
            = if (c <? n)%nat then g c <$> channels b !! c else channels b !! c.
Proof.
  induction n as [|n IH]; cbv zeta in *.
  - repeat split.
  - rewrite seq_S, fold_left_app. cbn [fold_left Nat.add channels sampleRate].
    destruct IH as (Hr & Hl & Hget).
    split; [exact Hr|]. split; [rewrite length_alter; exact Hl|].
    intros c. destruct (Nat.eq_dec n c) as [->|Hne].
    + rewrite list_lookup_alter_eq, Hget.
      destruct (Nat.ltb_spec c c); [lia|].
      destruct (Nat.ltb_spec c (Datatypes.S c)); [reflexivity|lia].
    + rewrite list_lookup_alter_ne by exact Hne. rewrite Hget.
      destruct (Nat.ltb_spec c n), (Nat.ltb_spec c (Datatypes.S n));
        try reflexivity; lia.
Qed.

(** The decoder on a buffer of even byte length that holds at least one
    complete frame: it returns a buffer of [numChannels] channels and
    [samples / numChannels] frames, rounded down, whose sample at channel
    [c], frame [f] is the 16-bit integer at [f * numChannels + c] over
    32768. *)
Lemma decode_complete_frames (data : list byte) (ctx : AudioContext)
    (rate : Z) (numChannels : nat) :
  supports ctx rate numChannels ->
  Nat.even (length data) = true ->
  let dataInt16 := int16_view data in
  let frameCount := (length dataInt16 / numChannels)%nat in
  (1 <= frameCount)%nat ->
  Z.of_nat frameCount < 2 ^ 32 ->
  exists buffer,
    decodeAudioData data ctx rate numChannels = Ok buffer /\
    sampleRate buffer = rate /\
    numberOfChannels buffer = numChannels /\
    frames buffer = Some frameCount /\
    forall c f, (c < numChannels)%nat -> (f < frameCount)%nat ->
      exists raw,
        dataInt16 !! (f * numChannels + c)%nat = Some raw /\
        sample_at buffer c f = Some (Fin (raw # 32768)).
Proof.
  intros [Hch Hrate] Heven dataInt16 frameCount Hone Hwrap.
  unfold decodeAudioData, new_Int16Array. rewrite Heven.
  fold dataInt16. unfold createBuffer, ToUint32.
  rewrite floor_frames by lia. fold frameCount.
  rewrite Z.mod_small by lia.
  replace (1 <=? numChannels)%nat with true by (symmetry; apply Nat.leb_le; lia).
  replace (numChannels <=? maxChannels ctx)%nat with true
    by (symmetry; apply Nat.leb_le; lia).
  replace (1 <=? Z.of_nat frameCount) with true by (symmetry; apply Z.leb_le; lia).
  replace (minRate ctx <=? rate) with true by (symmetry; apply Z.leb_le; lia).
  replace (rate <=? maxRate ctx) with true by (symmetry; apply Z.leb_le; lia).
  cbn [andb]. rewrite Nat2Z.id.
  eexists. split; [reflexivity|].
  match goal with |- context [fold_left ?F (seq 0 numChannels) ?B] =>
    pose proof (outer_loop
      (fun c => fill_channel dataInt16 numChannels c
                  (Z.of_nat (length dataInt16) # Pos.of_nat numChannels))
      numChannels B) as Hloop
  end.
  cbv zeta in Hloop. destruct Hloop as (Hr & Hl & Hget).
  cbn [channels sampleRate] in Hr, Hl, Hget. rewrite length_replicate in Hl.
  split; [exact Hr|]. split; [exact Hl|].
  assert (Hchan : forall c, (c < numChannels)%nat ->
    exists cd, channels (fold_left
                 (fun buf channel =>
                    mkBuffer (sampleRate buf)
                      (alter (fill_channel dataInt16 numChannels channel
                                (Z.of_nat (length dataInt16) # Pos.of_nat numChannels))
                         channel (channels buf)))
                 (seq 0 numChannels)
                 (mkBuffer rate (replicate numChannels (replicate frameCount (Fin 0)))))
               !! c = Some cd /\
      length cd = frameCount /\
      forall f, (f < frameCount)%nat ->
        cd !! f = Some (scaled (dataInt16 !! (f * numChannels + c)%nat))).
  { intros c Hc. rewrite Hget.
    destruct (Nat.ltb_spec c numChannels); [|lia].
    rewrite lookup_replicate_2 by exact Hc. cbn [fmap option_fmap option_map].
    eexists. split; [reflexivity|]. unfold fill_channel.
    pose proof (fill_stores
      (fun i => scaled (dataInt16 !! (i * numChannels + c)%nat))
      (Z.to_nat (Qceiling (Z.of_nat (length dataInt16) # Pos.of_nat numChannels)))
      (replicate frameCount (Fin 0))) as Hfill.
    cbv zeta in Hfill. destruct Hfill as [Hlen Hst].
    rewrite length_replicate in Hlen, Hst. split; [exact Hlen|].
    intros f Hf. rewrite Hst by exact Hf.
    pose proof (ceiling_frames (length dataInt16) numChannels ltac:(lia)) as Hceil.
    fold frameCount in Hceil.
    destruct (Nat.ltb_spec f
      (Z.to_nat (Qceiling (Z.of_nat (length dataInt16) # Pos.of_nat numChannels))));
      [reflexivity|lia]. }
  split.
  - unfold frames. destruct (Hchan 0%nat ltac:(lia)) as (cd & Hcd & Hlen & _).
    rewrite head_lookup, Hcd. simpl. rewrite Hlen. reflexivity.
  - intros c f Hc Hf. destruct (Hchan c Hc) as (cd & Hcd & Hlen & Hs).
    assert (Hidx : (f * numChannels + c < length dataInt16)%nat).
    { pose proof (Nat.div_mod_eq (length dataInt16) numChannels) as Hdm.
      fold frameCount in Hdm. nia. }
    destruct (lookup_lt_is_Some_2 dataInt16 _ Hidx) as [raw Hraw].
    exists raw. split; [exact Hraw|].
    unfold sample_at. rewrite Hcd. simpl. rewrite (Hs f Hf), Hraw. reflexivity.
Qed.

End Decoder.

Lemma int16_view_lookup : forall (bytes : list byte) (k : nat) (lo hi : byte),
  bytes !! (2 * k)%nat = Some lo ->
  bytes !! (2 * k + 1)%nat = Some hi ->
  Audio.int16_view bytes !! k = Some (Audio.int16 lo hi).
Proof.
  fix IH 1. intros [|b0 [|b1 rest]] k lo hi Hlo Hhi.
  - discriminate.
  - destruct k as [|k]; [discriminate|].
    replace (2 * Datatypes.S k)%nat with (Datatypes.S (Datatypes.S (2 * k))) in Hlo by lia.
    discriminate.
  - destruct k as [|k].
    + simpl in Hlo, Hhi. injection Hlo as <-. injection Hhi as <-. reflexivity.
    + replace (2 * Datatypes.S k)%nat with (Datatypes.S (Datatypes.S (2 * k))) in Hlo by lia.
      replace (2 * Datatypes.S k + 1)%nat
        with (Datatypes.S (Datatypes.S (2 * k + 1))) in Hhi by lia.
      cbn [Audio.int16_view]. apply (IH rest k lo hi Hlo Hhi).
Qed.

Lemma int16_view_bytes (bytes : list byte) (k : nat) (raw : Z) :
  Audio.int16_view bytes !! k = Some raw ->
  exists lo hi,
    bytes !! (2 * k)%nat = Some lo /\ bytes !! (2 * k + 1)%nat = Some hi /\
    raw = Audio.int16 lo hi.
Proof.
  intros Hraw. pose proof (lookup_lt_Some _ _ _ Hraw) as Hk.
  rewrite length_int16_view in Hk.
  assert (Hlen : (2 * k + 1 < length bytes)%nat).
  { pose proof (Nat.div2_odd (length bytes)) as Hodd.
    rewrite <- Nat.double_twice in Hodd. unfold Nat.double in Hodd.
    destruct (Nat.odd (length bytes)); simpl in Hodd; lia. }
  destruct (lookup_lt_is_Some_2 bytes (2 * k)%nat ltac:(lia)) as [lo Hlo].
  destruct (lookup_lt_is_Some_2 bytes (2 * k + 1)%nat ltac:(lia)) as [hi Hhi].
  exists lo, hi. repeat split; [exact Hlo|exact Hhi|].
  rewrite (int16_view_lookup bytes k lo hi Hlo Hhi) in Hraw. congruence.
Qed.

Lemma even_length_samples (data : list byte) (n : nat) :
  length data = (2 * n)%nat ->
  Nat.even (length data) = true /\ length (Audio.int16_view data) = n.
Proof.
  intros Hlen. rewrite length_int16_view, Hlen. split.
  - rewrite Nat.even_mul. reflexivity.
  - apply Nat.div2_double.
Qed.

(** C4, as the code has it.  For a channel count and a sample rate that the
    context supports, and a non-empty byte buffer of exactly [frameCount]
    frames of [2 * numChannels] bytes ([frameCount] below 2^32): the decoder
    returns a planar buffer of [numChannels] channels and [frameCount] frames
    at the given rate, and the sample at channel [c], frame [f] is the
    little-endian signed 16-bit integer at sample index
    [f * numChannels + c], divided by 32768.  In particular 4 bytes of mono
    input at 24000 Hz give exactly 2 frames. *)
Theorem decodeAudioData_whole_frames :
  (forall (data : list byte) (ctx : Audio.AudioContext) (rate : Z)
          (numChannels frameCount : nat),
     supports ctx rate numChannels ->
     length data = (2 * numChannels * frameCount)%nat ->
     (1 <= frameCount)%nat ->
     Z.of_nat frameCount < 2 ^ 32 ->
     exists buffer,
       Audio.decodeAudioData data ctx rate numChannels = Ok buffer /\
       Audio.sampleRate buffer = rate /\
       Audio.numberOfChannels buffer = numChannels /\
       Audio.frames buffer = Some frameCount /\
       forall c f, (c < numChannels)%nat -> (f < frameCount)%nat ->
         exists lo hi,
           data !! (2 * (f * numChannels + c))%nat = Some lo /\
           data !! (2 * (f * numChannels + c) + 1)%nat = Some hi /\
           Audio.sample_at buffer c f = Some (Audio.Fin (Audio.int16 lo hi # 32768))) /\
  (forall (data : list byte) (ctx : Audio.AudioContext),
     supports ctx 24000 1 ->
     length data = 4%nat ->
     exists buffer,
       Audio.decodeAudioData data ctx 24000 1 = Ok buffer /\
       Audio.frames buffer = Some 2%nat).
Proof.
  assert (Hgen : forall (data : list byte) ctx rate numChannels frameCount,
     supports ctx rate numChannels ->
     length data = (2 * numChannels * frameCount)%nat ->
     (1 <= frameCount)%nat ->
     Z.of_nat frameCount < 2 ^ 32 ->
     exists buffer,
       Audio.decodeAudioData data ctx rate numChannels = Ok buffer /\
       Audio.sampleRate buffer = rate /\
       Audio.numberOfChannels buffer = numChannels /\
       Audio.frames buffer = Some frameCount /\
       forall c f, (c < numChannels)%nat -> (f < frameCount)%nat ->
         exists lo hi,
           data !! (2 * (f * numChannels + c))%nat = Some lo /\
           data !! (2 * (f * numChannels + c) + 1)%nat = Some hi /\
           Audio.sample_at buffer c f = Some (Audio.Fin (Audio.int16 lo hi # 32768))).
  { intros data ctx rate numChannels frameCount Hsup Hlen Hone Hwrap.
    destruct (even_length_samples data (numChannels * frameCount)) as [Heven Hn];
      [lia|].
    assert (Hdiv : (length (Audio.int16_view data) / numChannels)%nat = frameCount).
    { rewrite Hn, Nat.mul_comm. apply Nat.div_mul. destruct Hsup; lia. }
    destruct (decode_complete_frames data ctx rate numChannels Hsup Heven)
      as (buffer & Hdec & Hrate & Hch & Hfr & Hs); rewrite ?Hdiv; try assumption.
    rewrite Hdiv in Hfr, Hs.
    exists buffer. repeat split; try assumption.
    intros c f Hc Hf. destruct (Hs c f Hc Hf) as (raw & Hraw & Hsample).
    destruct (int16_view_bytes data _ raw Hraw) as (lo & hi & Hlo & Hhi & ->).
    exists lo, hi. repeat split; assumption. }
  split; [exact Hgen|].
  intros data ctx Hsup Hlen.
  destruct (Hgen data ctx 24000 1%nat 2%nat Hsup Hlen ltac:(lia) ltac:(lia))
    as (buffer & Hdec & _ & _ & Hfr & _).
  exists buffer. split; assumption.
Qed.

Lemma decodeAudioData_whole_frames_witness :
  (exists buffer,
     Audio.decodeAudioData [x00; x40; x00; xc0; xff; x7f; x00; x80]
       standard_context 24000 2 = Ok buffer /\
     Audio.sampleRate buffer = 24000 /\
     Audio.numberOfChannels buffer = 2%nat /\
     Audio.frames buffer = Some 2%nat /\
     forall c f, (c < 2)%nat -> (f < 2)%nat ->
       exists lo hi,
         [x00; x40; x00; xc0; xff; x7f; x00; x80] !! (2 * (f * 2 + c))%nat = Some lo /\
         [x00; x40; x00; xc0; xff; x7f; x00; x80] !! (2 * (f * 2 + c) + 1)%nat = Some hi /\
         Audio.sample_at buffer c f = Some (Audio.Fin (Audio.int16 lo hi # 32768))) /\
  (exists buffer,
     Audio.decodeAudioData [x00; x40; x00; xc0] standard_context 24000 1 = Ok buffer /\
     Audio.frames buffer = Some 2%nat).
Proof.
  split.
  - apply (proj1 decodeAudioData_whole_frames
             [x00; x40; x00; xc0; xff; x7f; x00; x80] standard_context 24000 2%nat 2%nat).
    + unfold supports. simpl. lia.
    + reflexivity.
    + lia.
    + reflexivity.
  - apply (proj2 decodeAudioData_whole_frames [x00; x40; x00; xc0] standard_context).
    + unfold supports. simpl. lia.
    + reflexivity.
Defined.

(** C4 as stated fails on the empty buffer: its length, 0, is a multiple of
    2 bytes times the channel count, and [createBuffer] rejects a length of
    zero frames, so no buffer is produced. *)
Lemma decodeAudioData_empty_buffer :
  length (@nil byte) = (2 * 1 * 0)%nat /\
  supports standard_context 24000 1 /\
  Audio.decodeAudioData [] standard_context 24000 1
  = Throw (Audio.NotSupportedError "createBuffer: argument outside its nominal range").
Proof.
  split; [reflexivity|]. split; [unfold supports; simpl; lia|reflexivity].
Qed.

(** C5, as the code has it.  (a) For a channel count and a sample rate that
    the context supports, a byte buffer of even length whose sample count
    is not a multiple of the channel count, but that holds at least one
    complete frame and fewer than 2^32 of them: the decoder raises nothing
    and returns the complete frames only, each sample as in C4; the samples
    of the partial frame are dropped.  (b) A byte buffer of odd length: the
    decoder raises the RangeError of the Int16Array constructor, whatever
    the context, rate and channel count. *)
Theorem decodeAudioData_partial_frame :
  (forall (data : list byte) (ctx : Audio.AudioContext) (rate : Z)
          (numChannels : nat),
     supports ctx rate numChannels ->
     Nat.even (length data) = true ->
     (length data mod (2 * numChannels) <> 0)%nat ->
     let frameCount := (length data / (2 * numChannels))%nat in
     (1 <= frameCount)%nat ->
     Z.of_nat frameCount < 2 ^ 32 ->
     exists buffer,
       Audio.decodeAudioData data ctx rate numChannels = Ok buffer /\
       Audio.numberOfChannels buffer = numChannels /\
       Audio.frames buffer = Some frameCount /\
       (2 * numChannels * frameCount < length data)%nat /\
       forall c f, (c < numChannels)%nat -> (f < frameCount)%nat ->
         exists lo hi,
           data !! (2 * (f * numChannels + c))%nat = Some lo /\
           data !! (2 * (f * numChannels + c) + 1)%nat = Some hi /\
           Audio.sample_at buffer c f = Some (Audio.Fin (Audio.int16 lo hi # 32768))) /\
  (forall (data : list byte) (ctx : Audio.AudioContext) (rate : Z)
          (numChannels : nat),
     Nat.odd (length data) = true ->
     Audio.decodeAudioData data ctx rate numChannels
     = Throw (Audio.RangeError "byte length of Int16Array should be a multiple of 2")).
Proof.
  split.
  - intros data ctx rate numChannels Hsup Heven Hmod frameCount Hone Hwrap.
    assert (Hpos : (1 <= numChannels)%nat) by (destruct Hsup; lia).
    assert (Hhalf : length data = (2 * length (Audio.int16_view data))%nat).
    { rewrite length_int16_view.
      pose proof (Nat.div2_odd (length data)) as Hodd.
      rewrite <- Nat.negb_even, Heven in Hodd. simpl in Hodd. lia. }
    assert (Hdiv : (length (Audio.int16_view data) / numChannels)%nat = frameCount).
    { unfold frameCount. rewrite Hhalf at 1.
      rewrite Nat.Div0.div_mul_cancel_l by lia. reflexivity. }
    destruct (decode_complete_frames data ctx rate numChannels Hsup Heven)
      as (buffer & Hdec & Hrate & Hch & Hfr & Hs); rewrite ?Hdiv; try assumption.
    rewrite Hdiv in Hfr, Hs.
    exists buffer. repeat split; try assumption.
    + pose proof (Nat.div_mod_eq (length data) (2 * numChannels)) as Hdm.
      fold frameCount in Hdm. lia.
    + intros c f Hc Hf. destruct (Hs c f Hc Hf) as (raw & Hraw & Hsample).
      destruct (int16_view_bytes data _ raw Hraw) as (lo & hi & Hlo & Hhi & ->).
      exists lo, hi. repeat split; assumption.
  - intros data ctx rate numChannels Hodd.
    unfold Audio.decodeAudioData, Audio.new_Int16Array.
    rewrite <- Nat.negb_odd, Hodd. reflexivity.
Qed.

Lemma decodeAudioData_partial_frame_witness :
  (exists buffer,
     Audio.decodeAudioData [x00; x40; x00; xc0; xff; x7f] standard_context 24000 2
     = Ok buffer /\
     Audio.numberOfChannels buffer = 2%nat /\
     Audio.frames buffer = Some 1%nat /\
     (2 * 2 * 1 < 6)%nat /\
     forall c f, (c < 2)%nat -> (f < 1)%nat ->
       exists lo hi,
         [x00; x40; x00; xc0; xff; x7f] !! (2 * (f * 2 + c))%nat = Some lo /\
         [x00; x40; x00; xc0; xff; x7f] !! (2 * (f * 2 + c) + 1)%nat = Some hi /\
         Audio.sample_at buffer c f = Some (Audio.Fin (Audio.int16 lo hi # 32768))) /\
  Audio.decodeAudioData [x00; x40; x00] standard_context 24000 1
  = Throw (Audio.RangeError "byte length of Int16Array should be a multiple of 2").
Proof.
  split.
  - apply (proj1 decodeAudioData_partial_frame
             [x00; x40; x00; xc0; xff; x7f] standard_context 24000 2%nat).
    + unfold supports. simpl. lia.
    + reflexivity.
    + simpl. lia.
    + simpl. lia.
    + reflexivity.
  - apply (proj2 decodeAudioData_partial_frame [x00; x40; x00] standard_context 24000 1%nat).
    reflexivity.
Defined.

(** C5 as stated fails on a buffer of 3 bytes of mono input: its length is
    not a multiple of 2, and the decoder raises instead of truncating. *)
Lemma decodeAudioData_odd_length :
  (length [x00; x40; x00] mod (2 * 1) <> 0)%nat /\
  Audio.decodeAudioData [x00; x40; x00] standard_context 24000 1
  = Throw (Audio.RangeError "byte length of Int16Array should be a multiple of 2").
Proof. split; [simpl; lia|reflexivity]. Qed.

(* ===================================================================== *)
(** ** generateImage *)
(* ===================================================================== *)

Lemma withRetry_default_ok {S T} (fn : S -> result T * S) s ev v s' :
  fn s = (Ok v, s') ->
  withRetry_default fn (mkWorld s ev) = (Ok v, mkWorld s' (ev ++ [Attempt])).
Proof. apply withRetry_ok. Qed.

Lemma withRetry_default_permanent {S T} (fn : S -> result T * S) s ev e s' :
  fn s = (Throw e, s') ->
  classify e = Some false ->
  withRetry_default fn (mkWorld s ev) = (Throw e, mkWorld s' (ev ++ [Attempt])).
Proof. apply withRetry_permanent. Qed.

Lemma first_inline_none (ps : list Gemini.Part) :
  no_inline ps -> first_inline ps = None.
Proof.
  unfold first_inline. induction 1 as [|p ps Hp _ IH]; [reflexivity|].
  cbn [omap list_omap]. rewrite Hp. exact IH.
Qed.

Lemma first_inline_some (before after : list Gemini.Part) part blob :
  no_inline before ->
  Gemini.inlineData part = Some blob ->
  first_inline (before ++ part :: after) = Some blob.
Proof.
  unfold first_inline. intros Hb Hp.
  induction Hb as [|p ps Hnone _ IH]; cbn [app omap list_omap].
  - rewrite Hp. reflexivity.
  - rewrite Hnone. exact IH.
Qed.

Lemma scan_parts_first_inline (ps : list Gemini.Part) :
  Gemini.scan_parts ps =
  match first_inline ps with
  | Some blob => Ok ("data:image/png;base64," ++ template (Gemini.data blob))
  | None => Throw (Error "Visual synthesis failed. The fragment might be too complex.")
  end.
Proof.
  unfold first_inline. induction ps as [|p ps IH]; [reflexivity|].
  cbn [Gemini.scan_parts omap list_omap].
  destruct (Gemini.inlineData p); [reflexivity|exact IH].
Qed.

Lemma generate_image_once_reply {S} (generateContent : Gemini.Remote S)
    prompt s s' response :
  generateContent (Gemini.image_request prompt) s = (Ok response, s') ->
  Gemini.generate_image_once generateContent prompt s
  = (Gemini.scan_parts (default [] (Gemini.parts0 response)), s').
Proof.
  intros Hgc. unfold Gemini.generate_image_once, bind, lift. rewrite Hgc. reflexivity.
Qed.

(** X27.  How [generateImage] reads a reply.  The remote call answers with
    [response], whose parts are [ps] (none, when a member on the way to
    them is absent).  (a) If no part of [ps] has an inline-data member,
    [generateImage] fails with the synthesis-failure error, after that
    single call.  (b) If the first part of [ps] that has an inline-data
    member carries data there, [generateImage] returns that data after the
    prefix [data:image/png;base64,], after that single call.  (c) When that
    part has MIME type image/png and data QUJD the result is exactly
    [data:image/png;base64,QUJD]. *)
Theorem generateImage_first_inline_part {S} (generateContent : Gemini.Remote S)
    (prompt : string) (s s' : S) (ev : list Event)
    (response : Gemini.GenerateContentResponse) :
  generateContent (Gemini.image_request prompt) s = (Ok response, s') ->
  let ps := default [] (Gemini.parts0 response) in
  let run := Gemini.generateImage generateContent prompt (mkWorld s ev) in
  let after_one_call := mkWorld s' (ev ++ [Attempt]) in
  (no_inline ps ->
     run = (Throw (Error "Visual synthesis failed. The fragment might be too complex."),
            after_one_call)) /\
  (forall before part after mime payload,
     ps = (before ++ part :: after)%list ->
     no_inline before ->
     Gemini.inlineData part = Some (Gemini.mkBlob mime (Some payload)) ->
     run = (Ok ("data:image/png;base64," ++ payload), after_one_call)) /\
  (forall before part after,
     ps = (before ++ part :: after)%list ->
     no_inline before ->
     Gemini.inlineData part = Some (Gemini.mkBlob (Some "image/png") (Some "QUJD")) ->
     run = (Ok "data:image/png;base64,QUJD", after_one_call)).
Proof.
  intros Hgc ps run after_one_call.
  pose proof (generate_image_once_reply generateContent prompt s s' response Hgc) as Honce.
  fold ps in Honce. rewrite scan_parts_first_inline in Honce.
  assert (Hsome : forall before part after mime payload,
     ps = (before ++ part :: after)%list ->
     no_inline before ->
     Gemini.inlineData part = Some (Gemini.mkBlob mime (Some payload)) ->
     run = (Ok ("data:image/png;base64," ++ payload), after_one_call)).
  { intros before part after mime payload Hps Hb Hp.
    rewrite Hps, (first_inline_some before after part _ Hb Hp) in Honce.
    apply withRetry_default_ok. exact Honce. }
  split; [|split].
  - intros Hnone. rewrite (first_inline_none ps Hnone) in Honce.
    apply withRetry_default_permanent; [exact Honce|reflexivity].
  - exact Hsome.
  - intros before part after Hps Hb Hp.
    apply (Hsome before part after (Some "image/png") "QUJD" Hps Hb Hp).
Qed.

Lemma generateImage_first_inline_part_witness :
  (Gemini.generateImage scripted_remote "a vase" (mkWorld [Ok text_only_response] [])
   = (Throw (Error "Visual synthesis failed. The fragment might be too complex."),
      mkWorld [] ([] ++ [Attempt]))) /\
  (Gemini.generateImage scripted_remote "a vase" (mkWorld [Ok jpeg_response] [])
   = (Ok ("data:image/png;base64," ++ "/9j/4AAQ"), mkWorld [] ([] ++ [Attempt]))) /\
  (Gemini.generateImage scripted_remote "a vase" (mkWorld [Ok png_response] [])
   = (Ok "data:image/png;base64,QUJD", mkWorld [] ([] ++ [Attempt]))).
Proof.
  split; [|split].
  - apply (proj1 (generateImage_first_inline_part scripted_remote "a vase"
                    [Ok text_only_response] [] [] text_only_response eq_refl)).
    repeat constructor.
  - apply (proj1 (proj2 (generateImage_first_inline_part scripted_remote "a vase"
                    [Ok jpeg_response] [] [] jpeg_response eq_refl))
             [] _ [] (Some "image/jpeg") "/9j/4AAQ" eq_refl);
      [constructor | reflexivity].
  - apply (proj2 (proj2 (generateImage_first_inline_part scripted_remote "a vase"
                    [Ok png_response] [] [] png_response eq_refl))
             [Gemini.mkPart (Some "Here is the image.") None] _ [] eq_refl);
      [repeat constructor | reflexivity].
Defined.

(** C6, at the input where the code departs from it.  The first inline
    part of the reply has no data and the second one carries QUJD:
    [generateImage] neither fails with the synthesis error nor returns a
    payload; it returns the prefix followed by the text undefined.  On the
    same reply [generateSpeech], which tests the data and not the part,
    fails with its synthesis error. *)
Theorem generateImage_inline_without_data :
  Gemini.generateImage scripted_remote "a vase" (mkWorld [Ok dataless_response] [])
  = (Ok "data:image/png;base64,undefined", mkWorld [] [Attempt]) /\
  Gemini.generateSpeech scripted_remote "A vase." (mkWorld [Ok dataless_response] [])
  = (Throw (Error "Audio synthesis failed."), mkWorld [] [Attempt]).
Proof. split; reflexivity. Qed.

(** C10.  Whenever the response has an inline-data part, [generateImage]
    returns a string that starts with the fixed text
    [data:image/png;base64,] and continues with the data of the first such
    part, whatever MIME type that part records. *)
Theorem generateImage_fixed_png_label {S} (generateContent : Gemini.Remote S)
    (prompt : string) (s s' : S) (ev : list Event)
    (response : Gemini.GenerateContentResponse)
    (before after : list Gemini.Part) (part : Gemini.Part)
    (mime payload : option string) :
  generateContent (Gemini.image_request prompt) s = (Ok response, s') ->
  default [] (Gemini.parts0 response) = (before ++ part :: after)%list ->
  no_inline before ->
  Gemini.inlineData part = Some (Gemini.mkBlob mime payload) ->
  exists url,
    Gemini.generateImage generateContent prompt (mkWorld s ev)
    = (Ok url, mkWorld s' (ev ++ [Attempt])) /\
    String.prefix "data:image/png;base64," url = true /\
    url = "data:image/png;base64," ++ template payload.
Proof.
  intros Hgc Hps Hb Hp.
  exists ("data:image/png;base64," ++ template payload). split; [|split].
  - apply withRetry_default_ok.
    rewrite (generate_image_once_reply generateContent prompt s s' response Hgc).
    rewrite scan_parts_first_inline, Hps, (first_inline_some before after part _ Hb Hp).
    reflexivity.
  - apply prefix_app. eexists. reflexivity.
  - reflexivity.
Qed.

Lemma generateImage_fixed_png_label_witness :
  exists url,
    Gemini.generateImage scripted_remote "a vase" (mkWorld [Ok jpeg_response] [])
    = (Ok url, mkWorld [] ([] ++ [Attempt])) /\
    String.prefix "data:image/png;base64," url = true /\
    url = "data:image/png;base64," ++ template (Some "/9j/4AAQ").
Proof.
  apply (generateImage_fixed_png_label scripted_remote "a vase"
           [Ok jpeg_response] [] [] jpeg_response [] []
           (Gemini.mkPart None (Some (Gemini.mkBlob (Some "image/jpeg") (Some "/9j/4AAQ"))))
           (Some "image/jpeg") (Some "/9j/4AAQ")).
  - reflexivity.
  - reflexivity.
  - constructor.
  - reflexivity.
Defined.

(* ===================================================================== *)
(** ** analyzeArtifact *)
(* ===================================================================== *)

Lemma own_put (props : list (string * JSVal)) (key : string) (v : JSVal) :
  own (put props key v) key = Some v.
Proof.
  induction props as [|[k x] props IH]; simpl.
  - rewrite String.eqb_refl. reflexivity.
  - destruct (String.eqb k key) eqn:Hk; simpl; rewrite Hk; [reflexivity|exact IH].
Qed.

Lemma set_prop_get (v : JSVal) (key : string) (x v' : JSVal) :
  set_prop v key x = Ok v' -> opt_get v' key = x.
Proof.
  destruct v; simpl; try discriminate; intros [= <-]; simpl;
    rewrite own_put; reflexivity.
Qed.

Lemma push_sources (chunks : list Gemini.GroundingChunk) : forall acc : list JSVal,
  fold_left
    (fun sources chunk =>
       match Gemini.web chunk with
       | Some w => (sources ++ [Gemini.GroundingSource w])%list
       | None => sources
       end)
    chunks acc
  = (acc ++ (Gemini.GroundingSource <$> omap Gemini.web chunks))%list.
Proof.
  induction chunks as [|chunk chunks IH]; intros acc; simpl.
  - rewrite app_nil_r. reflexivity.
  - rewrite IH. destruct (Gemini.web chunk); simpl; [|reflexivity].
    rewrite <- app_assoc. reflexivity.
Qed.

Lemma collect_sources_cited (response : Gemini.GenerateContentResponse) :
  Gemini.collect_sources response = cited response.
Proof.
  unfold Gemini.collect_sources, cited.
  destruct (Gemini.candidate0 response ?> Gemini.groundingMetadata
            ?> Gemini.groundingChunks) as [chunks|]; [|reflexivity].
  apply push_sources.
Qed.

(** One call of the operation that [analyzeArtifact] retries, when it
    succeeds. *)
Lemma analyze_once_ok_inv {S} parse (generateContent : Gemini.Remote S)
    base64Image context s analysis s' :
  Gemini.analyze_once parse generateContent base64Image context s = (Ok analysis, s') ->
  exists response parsed,
    generateContent (Gemini.analysis_request base64Image context) s = (Ok response, s') /\
    parse (Gemini.or_else (Gemini.text response) "{}") = Ok parsed /\
    set_prop parsed "sources" (JArr (cited response) []) = Ok analysis.
Proof.
  unfold Gemini.analyze_once, bind, lift.
  destruct (generateContent _ s) as [[response|e] s1]; [|discriminate].
  destruct (parse _) as [parsed|e] eqn:Hparse; [|discriminate].
  rewrite collect_sources_cited. intros [= Hset <-].
  exists response, parsed. repeat split; assumption.
Qed.

(** C7.  Every analysis that [analyzeArtifact] returns has a [sources]
    member, an array built from the grounding chunks of the response it was
    parsed from: empty when there are none, and otherwise one entry with
    [title] and [uri] per chunk that has a web citation, in order, where a
    chunk without a title gets the title [Museum Database Entry].  For two
    chunks with web citations, the first titled and the second not, the
    array has two entries and the second one has the fallback title. *)
Theorem analyzeArtifact_sources {S} (parse : string -> result JSVal)
    (generateContent : Gemini.Remote S) (base64Image context : string)
    (w w' : World S) (analysis : JSVal) :
  Gemini.analyzeArtifact parse generateContent base64Image context w = (Ok analysis, w') ->
  exists s response sources,
    generateContent (Gemini.analysis_request base64Image context) s
    = (Ok response, remote w') /\
    opt_get analysis "sources" = JArr sources [] /\
    sources = Gemini.GroundingSource <$> omap Gemini.web (default [] (chunks_of response)) /\
    (forall cite, Gemini.title cite = None ->
       opt_get (Gemini.GroundingSource cite) "title" = JStr "Museum Database Entry") /\
    (forall u1 t1 u2,
       t1 <> "" ->
       chunks_of response
       = Some [Gemini.mkChunk (Some (Gemini.mkWeb (Some u1) (Some t1)));
               Gemini.mkChunk (Some (Gemini.mkWeb (Some u2) None))] ->
       length sources = 2%nat /\
       sources = [JObj [("title", JStr t1); ("uri", JStr u1)];
                  JObj [("title", JStr "Museum Database Entry"); ("uri", JStr u2)]]).
Proof.
  intros Hrun.
  destruct (withRetry_ok_inv _ _ _ _ _ _ Hrun) as (s & Honce).
  destruct (analyze_once_ok_inv _ _ _ _ _ _ _ Honce)
    as (response & parsed & Hgc & _ & Hset).
  exists s, response, (cited response).
  split; [exact Hgc|]. split; [exact (set_prop_get _ _ _ _ Hset)|].
  assert (Hcited : cited response
            = Gemini.GroundingSource <$> omap Gemini.web (default [] (chunks_of response))).
  { unfold cited, chunks_of.
    destruct (Gemini.candidate0 response ?> Gemini.groundingMetadata
              ?> Gemini.groundingChunks); reflexivity. }
  split; [exact Hcited|]. split.
  - intros cite Hnone. unfold Gemini.GroundingSource. rewrite Hnone. reflexivity.
  - intros u1 t1 u2 Ht1 Hchunks. rewrite Hcited, Hchunks. simpl.
    unfold Gemini.GroundingSource, Gemini.or_else. simpl.
    destruct (String.eqb_spec t1 ""); [contradiction|]. split; reflexivity.
Qed.

Lemma analyzeArtifact_sources_witness :
  exists s response sources,
    scripted_remote (Gemini.analysis_request "data:image/jpeg;base64,AAAA" "") s
    = (Ok response, []) /\
    opt_get (JObj [("confidenceScore", JNum 87);
                   ("sources",
                    JArr [JObj [("title", JStr "Indus seals");
                                ("uri", JStr "https://example.org/a")];
                          JObj [("title", JStr "Museum Database Entry");
                                ("uri", JStr "https://example.org/b")]] [])])
      "sources" = JArr sources [] /\
    sources = Gemini.GroundingSource <$> omap Gemini.web (default [] (chunks_of response)) /\
    (forall cite, Gemini.title cite = None ->
       opt_get (Gemini.GroundingSource cite) "title" = JStr "Museum Database Entry") /\
    (forall u1 t1 u2,
       t1 <> "" ->
       chunks_of response
       = Some [Gemini.mkChunk (Some (Gemini.mkWeb (Some u1) (Some t1)));
               Gemini.mkChunk (Some (Gemini.mkWeb (Some u2) None))] ->
       length sources = 2%nat /\
       sources = [JObj [("title", JStr t1); ("uri", JStr u1)];
                  JObj [("title", JStr "Museum Database Entry"); ("uri", JStr u2)]]).
Proof.
  apply (analyzeArtifact_sources parse_json_subset scripted_remote
           "data:image/jpeg;base64,AAAA" ""
           (mkWorld [Ok (grounded_response
                           (Some ("{" ++ String quote "confidenceScore"
                                      ++ String quote ": 87}")))] [])
           (mkWorld [] [Attempt])).
  reflexivity.
Defined.

(** C8, as the code has it.  When the text of the response is absent, the
    analyzer parses the text of an empty object instead, raises nothing,
    and returns the parsed empty object with only the [sources] member set:
    none of the members that the schema requires is present, and no check
    of them is made. *)
Theorem analyzeArtifact_absent_text {S} (parse : string -> result JSVal)
    (generateContent : Gemini.Remote S) (base64Image context : string)
    (s s' : S) (ev : list Event) (response : Gemini.GenerateContentResponse) :
  generateContent (Gemini.analysis_request base64Image context) s = (Ok response, s') ->
  Gemini.text response = None ->
  parse "{}" = Ok (JObj []) ->
  let analysis :=
    JObj [("sources",
           JArr (Gemini.GroundingSource
                   <$> omap Gemini.web (default [] (chunks_of response))) [])] in
  Gemini.analyzeArtifact parse generateContent base64Image context (mkWorld s ev)
  = (Ok analysis, mkWorld s' (ev ++ [Attempt])) /\
  Forall (fun field => opt_get analysis field = JUndefined) required_fields.
Proof.
  intros Hgc Htext Hparse analysis. split.
  - apply withRetry_default_ok.
    unfold Gemini.analyze_once, bind, lift. rewrite Hgc, Htext. cbn [Gemini.or_else].
    rewrite Hparse, collect_sources_cited. subst analysis. unfold cited, chunks_of.
    destruct (Gemini.candidate0 response ?> Gemini.groundingMetadata
              ?> Gemini.groundingChunks); reflexivity.
  - unfold required_fields. repeat constructor.
Qed.

Lemma analyzeArtifact_absent_text_witness :
  Gemini.analyzeArtifact parse_json_subset scripted_remote
    "data:image/jpeg;base64,AAAA" "" (mkWorld [Ok (grounded_response None)] [])
  = (Ok (JObj [("sources",
                JArr (Gemini.GroundingSource
                        <$> omap Gemini.web
                              (default [] (chunks_of (grounded_response None)))) [])]),
     mkWorld [] ([] ++ [Attempt])) /\
  Forall (fun field =>
            opt_get
              (JObj [("sources",
                      JArr (Gemini.GroundingSource
                              <$> omap Gemini.web
                                    (default [] (chunks_of (grounded_response None)))) [])])
              field = JUndefined)
    required_fields.
Proof.
  apply (analyzeArtifact_absent_text parse_json_subset scripted_remote
           "data:image/jpeg;base64,AAAA" "" [Ok (grounded_response None)] [] []
           (grounded_response None)); reflexivity.
Defined.

(** C8 as stated fails: on a response without text the call does not fail;
    it returns an object that has no [identification] member (nor any other
    required one). *)
Lemma analyzeArtifact_returns_bare_object :
  Gemini.text empty_response = None /\
  Gemini.analyzeArtifact parse_json_subset scripted_remote
    "data:image/jpeg;base64,AAAA" "" (mkWorld [Ok empty_response] [])
  = (Ok (JObj [("sources", JArr [] [])]), mkWorld [] [Attempt]) /\
  opt_get (JObj [("sources", JArr [] [])]) "identification" = JUndefined.
Proof. repeat split. Qed.

(* ===================================================================== *)
(** ** The generation stage of the upload handler *)
(* ===================================================================== *)

Section Stage.
Import App.

Lemma earliest_rejection {A} (ps : list (Settled A)) : forall acc,
  (is_Some acc \/ exists p e, In p ps /\ outcome p = Throw e) ->
  exists t e, fold_left earlier_rejection ps acc = Some (t, e) /\
              from_rejection acc ps e.
Proof.
  induction ps as [|p ps IH]; intros acc Hsome.
  - destruct Hsome as [[[t e] ->]|(p & e & [] & _)].
    exists t, e. split; [reflexivity|]. left. exists t. reflexivity.
  - cbn [fold_left].
    assert (Hnext : is_Some (earlier_rejection acc p) \/
                    exists q e, In q ps /\ outcome q = Throw e).
    { destruct Hsome as [[[t e] ->]|(q & e & [<-|Hin] & Hq)].
      - left. unfold earlier_rejection. destruct (outcome p); [eauto|].
        destruct (t <=? settledAt p)%nat; eauto.
      - left. unfold earlier_rejection. rewrite Hq.
        destruct acc as [[t e0]|]; [|eauto].
        destruct (t <=? settledAt p)%nat; eauto.
      - right. eauto. }
    destruct (IH _ Hnext) as (t & e & Hfold & Hfrom).
    exists t, e. split; [exact Hfold|].
    destruct Hfrom as [[t' Hacc]|(q & Hin & Hq)].
    + unfold earlier_rejection in Hacc.
      destruct (outcome p) as [v|e0] eqn:Hp.
      * left. eauto.
      * destruct acc as [[t0 e1]|].
        -- destruct (t0 <=? settledAt p)%nat.
           ++ left. eauto.
           ++ injection Hacc as _ <-. right. exists p. split; [left; reflexivity|exact Hp].
        -- injection Hacc as _ <-. right. exists p. split; [left; reflexivity|exact Hp].
    + right. exists q. split; [right; exact Hin|exact Hq].
Qed.






End Stage.



(** C9, at the input where the code departs from it.  The narration call
    keeps failing with a server error of code 500 whose message is a
    number: [generateSpeech] retries it twice and hands it on unchanged.
    With both images returned, the [catch] block of the stage then throws
    while lowering the message, before it reports anything: nothing is
    written to the data, and the status stays [generating] with no error
    text instead of becoming [error]. *)
Theorem generation_stage_unreported_failure :
  Gemini.generateSpeech scripted_remote "A vase."
    (mkWorld [Throw error_code_500; Throw error_code_500; Throw error_code_500] [])
  = (Throw error_code_500,
     mkWorld [] [Attempt; Sleep 1000; Attempt; Sleep 2000; Attempt]) /\
  App.generation_stage (App.analysis (App.data session)) past_ok present_ok
    (App.mkSettled (Throw error_code_500) 9) session
  = (Throw (TypeError "(err.message || '').toLowerCase is not a function"),
     App.mkState App.generating true (App.data session) None).
Proof. split; reflexivity. Qed.


(* ===================================================================== *)
(** ** withRetry: every run *)
(* ===================================================================== *)

Lemma total_delay_backoff (k : nat) (delay : Z) :
  total_delay (backoff_events k delay) = delay * (2 ^ Z.of_nat k - 1).
Proof.
  revert delay. induction k as [|k IH]; intros delay.
  - change (0 = delay * (1 - 1)). lia.
  - change (total_delay (backoff_events (Datatypes.S k) delay))
      with (delay + total_delay (backoff_events k (delay * 2))).
    rewrite IH, Nat2Z.inj_succ, Z.pow_succ_r by lia. lia.
Qed.

Lemma total_delay_app (a b : list Event) :
  total_delay (a ++ b) = total_delay a + total_delay b.
Proof.
  unfold total_delay. rewrite delays_app.
  induction (delays a) as [|d ds IH]; simpl; [reflexivity|]. rewrite IH. lia.
Qed.

(** The shape of a run, by induction on the retries left. *)
Lemma withRetry_decompose {S T} (fn : S -> result T * S) (retries : nat) :
  forall (delay : Z) (w : World S),
  let run := withRetry fn retries delay w in
  exists errs s1 r,
    TransientFailures fn errs (remote w) s1 /\
    (length errs <= retries)%nat /\
    fn s1 = (r, remote (snd run)) /\
    events (snd run)
    = (events w ++ backoff_events (length errs) delay ++ [Attempt])%list /\
    match r with
    | Ok v => fst run = Ok v
    | Throw e =>
        match classify e with
        | Some true => length errs = retries /\ fst run = Throw e
        | Some false => fst run = Throw e
        | None => exists te, isTransient e = Throw te /\ fst run = Throw te
        end
    end.
Proof.
  induction retries as [|retries IH]; intros delay w run; subst run.
  - exists [], (remote w). simpl.
    destruct (fn (remote w)) as [[v|e] s1] eqn:Hfn.
    + exists (Ok v). simpl. repeat split; [constructor|lia].
    + exists (Throw e). unfold classify.
      destruct (isTransient e) as [t|te] eqn:Hc; simpl.
      * repeat split; [constructor|lia|].
        destruct (truthy t); [split|]; reflexivity.
      * repeat split; [constructor|lia|]. exists te. split; reflexivity.
  - cbn [withRetry]. destruct (fn (remote w)) as [[v|e] s1] eqn:Hfn.
    + exists [], (remote w), (Ok v). simpl. repeat split; [constructor|lia|exact Hfn].
    + destruct (isTransient e) as [t|te] eqn:Hc.
      * destruct (truthy t) eqn:Ht.
        -- destruct (IH (delay * 2) (log (Sleep delay) (mkWorld s1 (events w ++ [Attempt]))))
             as (errs & s2 & r & Hrun & Hlen & Hlast & Hev & Hres).
           exists (e :: errs), s2, r. split.
           { econstructor; [exact Hfn| |exact Hrun]. unfold classify. rewrite Hc, Ht.
             reflexivity. }
           split; [simpl; lia|]. split; [exact Hlast|]. split.
           { rewrite Hev. unfold log. cbn [events length backoff_events].
             rewrite <- !app_assoc. reflexivity. }
           destruct r as [v|e']; [exact Hres|].
           destruct (classify e') as [[|]|]; [|exact Hres..].
           destruct Hres as [Hk Hr]. split; [simpl; lia|exact Hr].
        -- exists [], (remote w), (Throw e). simpl.
           repeat split; [constructor|lia|exact Hfn|].
           unfold classify. rewrite Hc, Ht. reflexivity.
      * exists [], (remote w), (Throw e). simpl.
        repeat split; [constructor|lia|exact Hfn|].
        unfold classify. rewrite Hc. exists te. split; reflexivity.
Qed.

(** X1.  Every run of [withRetry], whatever the operation does: the
    operation is called on a chain of transient failures no longer than
    [retries], each followed by its suspension, and then once more; the
    result is the outcome of that last call, unchanged, unless classifying
    its error throws, in which case that throw is the result.  A last call
    that failed transiently means the retries were used up. *)
Theorem withRetry_run {S T} (fn : S -> result T * S) (retries : nat)
    (delay : Z) (w : World S) :
  let run := withRetry fn retries delay w in
  exists errs s1 r,
    TransientFailures fn errs (remote w) s1 /\
    (length errs <= retries)%nat /\
    fn s1 = (r, remote (snd run)) /\
    events (snd run)
    = (events w ++ backoff_events (length errs) delay ++ [Attempt])%list /\
    match r with
    | Ok v => fst run = Ok v
    | Throw e =>
        match classify e with
        | Some true => length errs = retries /\ fst run = Throw e
        | Some false => fst run = Throw e
        | None => exists te, isTransient e = Throw te /\ fst run = Throw te
        end
    end.
Proof. apply withRetry_decompose. Qed.

(** X2.  With a non-negative initial delay, a run of [withRetry] calls the
    operation at least once and at most [retries + 1] times, suspends once
    less than it calls, and the delays it passes to [setTimeout] sum to at
    most [delay * (2^retries - 1)] milliseconds. *)
Theorem withRetry_bounds {S T} (fn : S -> result T * S) (retries : nat)
    (delay : Z) (w : World S) :
  0 <= delay ->
  exists tr,
    events (snd (withRetry fn retries delay w)) = (events w ++ tr)%list /\
    (1 <= attempts tr <= retries + 1)%nat /\
    length (delays tr) = (attempts tr - 1)%nat /\
    0 <= total_delay tr <= delay * (2 ^ Z.of_nat retries - 1).
Proof.
  intros Hdelay.
  destruct (withRetry_decompose fn retries delay w)
    as (errs & s1 & r & _ & Hlen & _ & Hev & _).
  exists (backoff_events (length errs) delay ++ [Attempt])%list.
  split; [exact Hev|].
  rewrite attempts_app, attempts_backoff, delays_app, length_app,
    length_delays_backoff, total_delay_app, total_delay_backoff.
  cbn [attempts delays omap list_omap length total_delay foldr].
  split; [lia|]. split; [lia|].
  assert (H1 : 0 < 2 ^ Z.of_nat (length errs)) by (apply Z.pow_pos_nonneg; lia).
  assert (H2 : 2 ^ Z.of_nat (length errs) <= 2 ^ Z.of_nat retries)
    by (apply Z.pow_le_mono_r; lia).
  nia.
Qed.

Lemma withRetry_bounds_witness :
  exists tr,
    events (snd (withRetry (@scripted string) 2 1000
                   (mkWorld [Throw error_500; Throw error_internal; Throw error_500] [])))
    = ([] ++ tr)%list /\
    (1 <= attempts tr <= 2 + 1)%nat /\
    length (delays tr) = (attempts tr - 1)%nat /\
    0 <= total_delay tr <= 1000 * (2 ^ Z.of_nat 2 - 1).
Proof.
  apply (withRetry_bounds (@scripted string) 2 1000
           (mkWorld [Throw error_500; Throw error_internal; Throw error_500] [])).
  lia.
Defined.

(** X3.  An error that matches neither the status nor the code test and
    whose message is present but has no callable [includes] (a number, a
    boolean, an object): the classification throws, and [withRetry] raises
    that TypeError in place of the error, after a single call and without
    suspending, however many retries remain. *)
Theorem withRetry_unclassifiable {S T} (fn : S -> result T * S)
    (retries : nat) (delay : Z) (s s' : S) (ev : list Event) (e : JSVal) :
  fn s = (Throw e, s') ->
  opt_get e "status" <> JStr "INTERNAL" ->
  opt_get e "code" <> JNum 500 ->
  message_without_includes e ->
  withRetry fn retries delay (mkWorld s ev)
  = (Throw (TypeError "error?.message?.includes is not a function"),
     mkWorld s' (ev ++ [Attempt])).
Proof.
  intros Hfn Hs Hc Hm.
  assert (Hcl : isTransient e
                = Throw (TypeError "error?.message?.includes is not a function")).
  { unfold isTransient.
    destruct (strict_eq_str (opt_get e "status") "INTERNAL") eqn:Es;
      [apply strict_eq_str_iff in Es; contradiction|].
    destruct (strict_eq_num (opt_get e "code") 500) eqn:Ec;
      [apply strict_eq_num_iff in Ec; contradiction|].
    unfold message_includes. unfold message_without_includes in Hm.
    destruct (opt_get e "message") as [| |b|n|m|elems props|props];
      try contradiction; try reflexivity.
    destruct (own props "includes"); [reflexivity|contradiction]. }
  destruct retries; simpl; rewrite Hfn, Hcl; reflexivity.
Qed.

Lemma withRetry_unclassifiable_witness :
  withRetry (@scripted string) 2 1000
    (mkWorld [Throw error_numeric_message; Ok "late"] [])
  = (Throw (TypeError "error?.message?.includes is not a function"),
     mkWorld [Ok "late"] ([] ++ [Attempt])).
Proof.
  apply (withRetry_unclassifiable (@scripted string) 2 1000
           [Throw error_numeric_message; Ok "late"] [Ok "late"] []
           error_numeric_message).
  - reflexivity.
  - discriminate.
  - discriminate.
  - exact I.
Defined.

(* ===================================================================== *)
(** ** The service functions: further behaviour *)
(* ===================================================================== *)

Lemma generate_speech_once_reply {S} (generateContent : Gemini.Remote S)
    narrative s s' response :
  generateContent (Gemini.speech_request narrative) s = (Ok response, s') ->
  Gemini.generate_speech_once generateContent narrative s
  = (match Gemini.parts0 response ?> head ?> Gemini.inlineData ?> Gemini.data with
     | Some base64Audio =>
         if String.eqb base64Audio "" then Throw (Error "Audio synthesis failed.")
         else Ok base64Audio
     | None => Throw (Error "Audio synthesis failed.")
     end, s').
Proof.
  intros Hgc. unfold Gemini.generate_speech_once, bind. rewrite Hgc.
  destruct (Gemini.parts0 response ?> head ?> Gemini.inlineData ?> Gemini.data) as [d|];
    [|reflexivity].
  destruct (String.eqb d ""); reflexivity.
Qed.

(** X4.  [generateSpeech] looks at the first part of the response only.
    (a) When that part has inline data with a non-empty payload, the payload
    is returned as it is, without a data-URI prefix and whatever the MIME
    type.  (b) When the first part has no inline data, the call fails with
    the audio synthesis error after that single call, even if a later part
    carries audio. *)
Theorem generateSpeech_first_part_only {S} (generateContent : Gemini.Remote S)
    (narrative : string) (s s' : S) (ev : list Event)
    (response : Gemini.GenerateContentResponse) (part : Gemini.Part)
    (rest : list Gemini.Part) :
  generateContent (Gemini.speech_request narrative) s = (Ok response, s') ->
  Gemini.parts0 response = Some (part :: rest) ->
  let run := Gemini.generateSpeech generateContent narrative (mkWorld s ev) in
  (forall mime payload,
     Gemini.inlineData part = Some (Gemini.mkBlob mime (Some payload)) ->
     payload <> "" ->
     run = (Ok payload, mkWorld s' (ev ++ [Attempt]))) /\
  (Gemini.inlineData part = None ->
     run = (Throw (Error "Audio synthesis failed."), mkWorld s' (ev ++ [Attempt]))).
Proof.
  intros Hgc Hparts run.
  pose proof (generate_speech_once_reply generateContent narrative s s' response Hgc)
    as Honce.
  rewrite Hparts in Honce. cbn [chain head] in Honce. split.
  - intros mime payload Hp Hne. rewrite Hp in Honce. cbn [chain Gemini.data] in Honce.
    destruct (String.eqb_spec payload ""); [contradiction|].
    apply withRetry_default_ok. exact Honce.
  - intros Hp. rewrite Hp in Honce. cbn [chain] in Honce.
    apply withRetry_default_permanent; [exact Honce|reflexivity].
Qed.

Lemma generateSpeech_first_part_only_witness :
  Gemini.generateSpeech scripted_remote "A vase." (mkWorld [Ok audio_response] [])
  = (Ok "AEAAwA==", mkWorld [] ([] ++ [Attempt])) /\
  Gemini.generateSpeech scripted_remote "A vase." (mkWorld [Ok audio_second_response] [])
  = (Throw (Error "Audio synthesis failed."), mkWorld [] ([] ++ [Attempt])).
Proof.
  split.
  - apply (proj1 (generateSpeech_first_part_only scripted_remote "A vase."
                    [Ok audio_response] [] [] audio_response _ [] eq_refl eq_refl)
             (Some "audio/L16") "AEAAwA=="); [reflexivity|discriminate].
  - apply (proj2 (generateSpeech_first_part_only scripted_remote "A vase."
                    [Ok audio_second_response] [] [] audio_second_response
                    (Gemini.mkPart (Some "Narration follows.") None) _ eq_refl eq_refl)).
    reflexivity.
Defined.

(** Failures of the remote call are failures of the operation built on it. *)
Lemma TransientFailures_bind {S A B} (m : Async S A) (k : A -> Async S B)
    errs s s' :
  TransientFailures m errs s s' -> TransientFailures (bind m k) errs s s'.
Proof.
  induction 1 as [|e errs s0 s1 s2 Hm Hc _ IH]; [constructor|].
  econstructor; [|exact Hc|exact IH]. unfold bind. rewrite Hm. reflexivity.
Qed.

(** X5.  [generateImage] when the remote call fails transiently [k] times,
    [k] at most 2, and then answers: the answer is read exactly as on a
    first call (the first inline part, or the synthesis error, which is not
    retried); the remote call was made [k + 1] times, after suspensions of
    1000 ms and then 2000 ms. *)
Theorem generateImage_after_transient_failures {S}
    (generateContent : Gemini.Remote S) (prompt : string) (errs : list JSVal)
    (s s1 s2 : S) (ev : list Event) (response : Gemini.GenerateContentResponse) :
  TransientFailures (generateContent (Gemini.image_request prompt)) errs s s1 ->
  (length errs <= 2)%nat ->
  generateContent (Gemini.image_request prompt) s1 = (Ok response, s2) ->
  Gemini.generateImage generateContent prompt (mkWorld s ev)
  = (Gemini.scan_parts (default [] (Gemini.parts0 response)),
     mkWorld s2 (ev ++ backoff_events (length errs) 1000 ++ [Attempt])) /\
  delays (backoff_events (length errs) 1000) = take (length errs) [1000; 2000].
Proof.
  intros Hrun Hlen Hgc. split.
  - unfold Gemini.generateImage, withRetry_default, MAX_RETRIES, INITIAL_BACKOFF.
    assert (Hop : TransientFailures (Gemini.generate_image_once generateContent prompt)
                    errs s s1)
      by (apply (TransientFailures_bind (generateContent (Gemini.image_request prompt)));
          exact Hrun).
    rewrite (withRetry_steps _ errs 2 1000 s s1 ev Hop Hlen).
    pose proof (generate_image_once_reply generateContent prompt s1 s2 response Hgc)
      as Honce.
    rewrite scan_parts_first_inline in *.
    destruct (first_inline (default [] (Gemini.parts0 response))) as [blob|].
    + rewrite (withRetry_ok _ _ _ _ _ _ _ Honce), <- app_assoc. reflexivity.
    + rewrite (withRetry_permanent _ _ _ _ _ _ _ Honce eq_refl), <- app_assoc.
      reflexivity.
  - destruct errs as [|e1 [|e2 [|e3 errs]]]; simpl in *; try reflexivity; lia.
Qed.

Lemma generateImage_after_transient_failures_witness :
  Gemini.generateImage scripted_remote "a vase"
    (mkWorld [Throw error_500; Throw error_internal; Ok png_response] [])
  = (Gemini.scan_parts (default [] (Gemini.parts0 png_response)),
     mkWorld [] ([] ++ backoff_events 2 1000 ++ [Attempt])) /\
  delays (backoff_events 2 1000) = take 2 [1000; 2000].
Proof.
  apply (generateImage_after_transient_failures scripted_remote "a vase"
           [error_500; error_internal]
           [Throw error_500; Throw error_internal; Ok png_response]
           [Ok png_response] [] [] png_response).
  - apply (tf_cons _ error_500 _ _ [Throw error_internal; Ok png_response] _);
      [reflexivity | reflexivity |].
    apply (tf_cons _ error_internal _ _ [Ok png_response] _);
      [reflexivity | reflexivity |].
    apply tf_nil.
  - simpl. lia.
  - reflexivity.
Defined.

Lemma includes_cons (c : ascii) (s : string) :
  includes (String c s) "," = (Ascii.eqb c "," || includes s ",")%bool.
Proof.
  cbn [includes]. f_equal. cbn [String.prefix].
  destruct (ascii_dec "," c) as [<-|Hne].
  - destruct s; reflexivity.
  - symmetry. apply Ascii.eqb_neq. congruence.
Qed.

Lemma until_comma_whole (s : string) :
  includes s "," = false -> Gemini.until_comma s = s.
Proof.
  induction s as [|c s IH]; [reflexivity|].
  rewrite includes_cons. intros H. apply orb_false_elim in H as [Hc Hs].
  cbn [Gemini.until_comma]. rewrite Hc, (IH Hs). reflexivity.
Qed.

Lemma split_comma_1_none (s : string) :
  includes s "," = false -> Gemini.split_comma_1 s = None.
Proof.
  induction s as [|c s IH]; [reflexivity|].
  rewrite includes_cons. intros H. apply orb_false_elim in H as [Hc Hs].
  cbn [Gemini.split_comma_1]. rewrite Hc. exact (IH Hs).
Qed.

Lemma split_comma_1_prefixed (pre rest : string) :
  includes pre "," = false ->
  Gemini.split_comma_1 (pre ++ "," ++ rest) = Some (Gemini.until_comma rest).
Proof.
  induction pre as [|c pre IH]; [reflexivity|].
  rewrite includes_cons. intros H. apply orb_false_elim in H as [Hc Hs].
  cbn [String.append Gemini.split_comma_1]. rewrite Hc. exact (IH Hs).
Qed.

(** X6.  The image sent with the analysis request.  (a) For a data URI,
    that is a prefix without comma, a comma and a non-empty payload without
    comma, it is the payload alone.  (b) A string without comma is sent
    whole.  (c) A data URI with an empty payload is sent whole too, prefix
    and comma included. *)
Theorem analysis_request_image (pre payload context : string) :
  includes pre "," = false ->
  includes payload "," = false ->
  (payload <> "" ->
   Gemini.analysis_request (pre ++ "," ++ payload) context
   = Gemini.AnalysisRequest "gemini-3-pro-preview" payload context) /\
  Gemini.analysis_request payload context
  = Gemini.AnalysisRequest "gemini-3-pro-preview" payload context /\
  Gemini.analysis_request (pre ++ ",") context
  = Gemini.AnalysisRequest "gemini-3-pro-preview" (pre ++ ",") context.
Proof.
  intros Hpre Hpay. unfold Gemini.analysis_request. split; [|split].
  - intros Hne. rewrite (split_comma_1_prefixed pre payload Hpre),
      (until_comma_whole payload Hpay). unfold Gemini.or_else.
    destruct (String.eqb_spec payload ""); [contradiction|reflexivity].
  - rewrite (split_comma_1_none payload Hpay). reflexivity.
  - change (pre ++ ",") with (pre ++ "," ++ "").
    rewrite (split_comma_1_prefixed pre "" Hpre). reflexivity.
Qed.

Lemma analysis_request_image_witness :
  Gemini.analysis_request ("data:image/jpeg;base64" ++ "," ++ "AAAA") "an urn"
  = Gemini.AnalysisRequest "gemini-3-pro-preview" "AAAA" "an urn" /\
  Gemini.analysis_request "AAAA" "an urn"
  = Gemini.AnalysisRequest "gemini-3-pro-preview" "AAAA" "an urn" /\
  Gemini.analysis_request ("data:image/jpeg;base64" ++ ",") "an urn"
  = Gemini.AnalysisRequest "gemini-3-pro-preview" ("data:image/jpeg;base64" ++ ",")
      "an urn".
Proof.
  destruct (analysis_request_image "data:image/jpeg;base64" "AAAA" "an urn")
    as (Ha & Hb & Hc); [reflexivity|reflexivity|].
  split; [apply Ha; discriminate|]. split; assumption.
Defined.

Lemma own_put_ne (props : list (string * JSVal)) (key key' : string) (v : JSVal) :
  key' <> key -> own (put props key v) key' = own props key'.
Proof.
  intros Hne. induction props as [|[k x] props IH]; simpl.
  - destruct (String.eqb_spec key key'); [congruence|reflexivity].
  - destruct (String.eqb_spec k key) as [->|Hk]; simpl.
    + destruct (String.eqb_spec key key'); [congruence|reflexivity].
    + destruct (String.eqb k key'); [reflexivity|exact IH].
Qed.

Lemma set_prop_others (v : JSVal) (key key' : string) (x v' : JSVal) :
  set_prop v key x = Ok v' -> key' <> key -> opt_get v' key' = opt_get v key'.
Proof.
  destruct v; simpl; try discriminate; intros [= <-] Hne; simpl;
    rewrite own_put_ne by exact Hne; reflexivity.
Qed.

(** X7.  Whatever [analyzeArtifact] returns is the value parsed from the
    text of a response (or from the text of an empty object when there is
    no text), an object or an array, with every member other than
    [sources] as parsed: only [sources] is replaced. *)
Theorem analyzeArtifact_keeps_members {S} (parse : string -> result JSVal)
    (generateContent : Gemini.Remote S) (base64Image context : string)
    (w w' : World S) (analysis : JSVal) :
  Gemini.analyzeArtifact parse generateContent base64Image context w = (Ok analysis, w') ->
  exists s response parsed,
    generateContent (Gemini.analysis_request base64Image context) s
    = (Ok response, remote w') /\
    parse (Gemini.or_else (Gemini.text response) "{}") = Ok parsed /\
    ((exists props, parsed = JObj props) \/
     (exists elems props, parsed = JArr elems props)) /\
    forall key, key <> "sources" -> opt_get analysis key = opt_get parsed key.
Proof.
  intros Hrun.
  destruct (withRetry_ok_inv _ _ _ _ _ _ Hrun) as (s & Honce).
  destruct (analyze_once_ok_inv _ _ _ _ _ _ _ Honce)
    as (response & parsed & Hgc & Hparse & Hset).
  exists s, response, parsed. split; [exact Hgc|]. split; [exact Hparse|]. split.
  - destruct parsed; simpl in Hset; try discriminate; eauto.
  - intros key Hkey. exact (set_prop_others _ _ _ _ _ Hset Hkey).
Qed.

Lemma analyzeArtifact_keeps_members_witness :
  exists s response parsed,
    scripted_remote (Gemini.analysis_request "data:image/jpeg;base64,AAAA" "") s
    = (Ok response, []) /\
    parse_json_subset (Gemini.or_else (Gemini.text response) "{}") = Ok parsed /\
    ((exists props, parsed = JObj props) \/
     (exists elems props, parsed = JArr elems props)) /\
    forall key, key <> "sources" ->
      opt_get (JObj [("confidenceScore", JNum 87);
                     ("sources",
                      JArr [JObj [("title", JStr "Indus seals");
                                  ("uri", JStr "https://example.org/a")];
                            JObj [("title", JStr "Museum Database Entry");
                                  ("uri", JStr "https://example.org/b")]] [])])
        key
      = opt_get parsed key.
Proof.
  apply (analyzeArtifact_keeps_members parse_json_subset scripted_remote
           "data:image/jpeg;base64,AAAA" ""
           (mkWorld [Ok (grounded_response
                           (Some ("{" ++ String quote "confidenceScore"
                                      ++ String quote ": 87}")))] [])
           (mkWorld [] [Attempt])).
  reflexivity.
Defined.

(** X8.  When the text of the response does not parse, what happens depends
    on how [withRetry] classifies the parse error.  (a) Classified as not
    transient, it is raised unchanged after the single remote call.  (b)
    Classified as transient, which an error whose message quotes a text
    containing 500 is, the analyzer suspends for 1000 ms and makes the
    remote call again, as for a server failure. *)
Theorem analyzeArtifact_parse_failure {S} (parse : string -> result JSVal)
    (generateContent : Gemini.Remote S) (base64Image context : string)
    (s s' : S) (ev : list Event) (response : Gemini.GenerateContentResponse)
    (e : JSVal) :
  generateContent (Gemini.analysis_request base64Image context) s = (Ok response, s') ->
  parse (Gemini.or_else (Gemini.text response) "{}") = Throw e ->
  let run := Gemini.analyzeArtifact parse generateContent base64Image context
               (mkWorld s ev) in
  (classify e = Some false -> run = (Throw e, mkWorld s' (ev ++ [Attempt]))) /\
  (classify e = Some true ->
     exists tr,
       events (snd run) = (ev ++ Attempt :: Sleep 1000 :: tr)%list /\
       (1 <= attempts tr)%nat).
Proof.
  intros Hgc Hparse run.
  assert (Honce : Gemini.analyze_once parse generateContent base64Image context s
                  = (Throw e, s')).
  { unfold Gemini.analyze_once, bind, lift. rewrite Hgc, Hparse. reflexivity. }
  split; intros Hc.
  - apply withRetry_default_permanent; assumption.
  - assert (Hrun : run = withRetry
                     (Gemini.analyze_once parse generateContent base64Image context)
                     1 2000 (mkWorld s' (ev ++ [Attempt; Sleep 1000])))
      by exact (withRetry_transient _ 1 1000 s ev e s' Honce Hc).
    destruct (withRetry_decompose
                (Gemini.analyze_once parse generateContent base64Image context)
                1 2000 (mkWorld s' (ev ++ [Attempt; Sleep 1000])))
      as (errs & s1 & r & _ & _ & _ & Hev & _).
    rewrite <- Hrun in Hev. cbn [events] in Hev.
    exists (backoff_events (length errs) 2000 ++ [Attempt])%list. split.
    + rewrite Hev, <- app_assoc. reflexivity.
    + rewrite attempts_app. simpl. lia.
Qed.

Lemma analyzeArtifact_parse_failure_witness :
  (Gemini.analyzeArtifact parse_json_subset scripted_remote "AAAA" ""
     (mkWorld [Ok (text_response "not json")] [])
   = (Throw (SyntaxError "Unexpected token in JSON"), mkWorld [] ([] ++ [Attempt]))) /\
  (exists tr,
     events (snd (Gemini.analyzeArtifact parse_quoting scripted_remote "AAAA" ""
                    (mkWorld [Ok (text_response "HTTP 500"); Ok (text_response "{}")]
                       [])))
     = ([] ++ Attempt :: Sleep 1000 :: tr)%list /\
     (1 <= attempts tr)%nat).
Proof.
  split.
  - apply (proj1 (analyzeArtifact_parse_failure parse_json_subset scripted_remote
                    "AAAA" "" [Ok (text_response "not json")] [] []
                    (text_response "not json") _ eq_refl eq_refl)).
    reflexivity.
  - apply (proj2 (analyzeArtifact_parse_failure parse_quoting scripted_remote
                    "AAAA" "" [Ok (text_response "HTTP 500"); Ok (text_response "{}")]
                    [Ok (text_response "{}")] [] (text_response "HTTP 500") _
                    eq_refl eq_refl)).
    reflexivity.
Defined.

(* ===================================================================== *)
(** ** The upload handler: further behaviour *)
(* ===================================================================== *)

Lemma get_prop_opt_get (v : JSVal) (key : string) (x : JSVal) :
  get_prop v key = Ok x -> opt_get v key = x.
Proof. destruct v; simpl; intros H; try discriminate; congruence. Qed.

Lemma get_prop_defined (v : JSVal) (key : string) :
  nullish v = false -> get_prop v key = Ok (opt_get v key).
Proof. destruct v; simpl; intros H; try discriminate; reflexivity. Qed.

Lemma toLowerCase_app (a b : string) :
  toLowerCase (a ++ b) = toLowerCase a ++ toLowerCase b.
Proof. induction a as [|c a IH]; simpl; [reflexivity|]. rewrite IH. reflexivity. Qed.

Lemma includes_lowered_500 (msg : string) :
  includes msg "500" = true -> includes (toLowerCase msg) "500" = true.
Proof.
  rewrite !includes_app. intros (a & b & ->).
  exists (toLowerCase a), (toLowerCase b). rewrite !toLowerCase_app. reflexivity.
Qed.

(** What the [catch] block does with an error whose message is a string. *)
Lemma on_failure_string_message err msg st :
  get_prop err "message" = Ok (JStr msg) ->
  let low := toLowerCase msg in
  App.on_failure err st
  = (Ok tt,
     App.mkState App.error
       (App.hasKey st && negb (credential_pattern low))
       (App.data st)
       (Some (if credential_pattern low
              then "API Access Refused. Please select a valid paid key."
              else if transient_pattern low
              then "The AI model encountered a temporary hiccup. Please try again."
              else App.message_or (JStr msg)
                     "Forensic analysis failed. The image might be too blurry or complex."))).
Proof.
  intros Hget low. unfold App.on_failure, bind, lift. rewrite Hget.
  assert (Hlow : App.lowered_message (JStr msg) = Ok low).
  { unfold App.lowered_message. simpl. destruct (negb (String.eqb msg "")) eqn:E;
      [reflexivity|].
    apply negb_false_iff, String.eqb_eq in E. subst. reflexivity. }
  rewrite Hlow. unfold credential_pattern, transient_pattern.
  destruct (includes low "permission" || includes low "403" || includes low "not found")%bool.
  - simpl. rewrite andb_false_r. reflexivity.
  - destruct (includes low "500" || includes low "internal")%bool; simpl;
      rewrite andb_true_r; reflexivity.
Qed.

(** X9.  The [catch] block on an error with a string message: the status
    becomes [error], the session data is untouched, an error text is set,
    and the key flag is never switched on; it is switched off exactly when
    the message, compared without regard to case, mentions permission, 403
    or not found, and then the text is the access-refused one even if the
    message also mentions 500. *)
Theorem on_failure_key_flag (err : JSVal) (msg : string) (st : App.State) :
  get_prop err "message" = Ok (JStr msg) ->
  let cred := credential_pattern (toLowerCase msg) in
  let st' := snd (App.on_failure err st) in
  fst (App.on_failure err st) = Ok tt /\
  App.status st' = App.error /\
  App.data st' = App.data st /\
  is_Some (App.errorText st') /\
  App.hasKey st' = (App.hasKey st && negb cred)%bool /\
  (cred = true ->
     App.hasKey st' = false /\
     App.errorText st' = Some "API Access Refused. Please select a valid paid key.").
Proof.
  intros Hget cred st'. subst st'.
  rewrite (on_failure_string_message err msg st Hget).
  cbn [fst snd App.status App.data App.errorText App.hasKey]. fold cred.
  split; [reflexivity|]. split; [reflexivity|]. split; [reflexivity|].
  split; [eexists; reflexivity|]. split; [reflexivity|].
  intros Hc. rewrite Hc. split; [apply andb_false_r|reflexivity].
Qed.

Lemma on_failure_key_flag_witness :
  let st' := snd (App.on_failure error_quota session) in
  fst (App.on_failure error_quota session) = Ok tt /\
  App.status st' = App.error /\
  App.data st' = App.data session /\
  is_Some (App.errorText st') /\
  App.hasKey st'
  = (App.hasKey session
     && negb (credential_pattern
                (toLowerCase "Permission denied: quota tier 500 exceeded")))%bool /\
  App.hasKey st' = false /\
  App.errorText st' = Some "API Access Refused. Please select a valid paid key.".
Proof.
  destruct (on_failure_key_flag error_quota
              "Permission denied: quota tier 500 exceeded" session eq_refl)
    as (H1 & H2 & H3 & H4 & H5 & H6).
  repeat (split; [assumption|]). apply H6. reflexivity.
Defined.

(** X10.  An error whose message is a string that contains 500 is one that
    [withRetry] classifies as transient, and once it reaches the [catch]
    block its raw message is never shown: the text is the temporary-hiccup
    one, or the access-refused one when a credential pattern matches. *)
Theorem transient_message_reported (err : JSVal) (msg : string) (st : App.State) :
  get_prop err "message" = Ok (JStr msg) ->
  includes msg "500" = true ->
  classify err = Some true /\
  (App.errorText (snd (App.on_failure err st))
   = Some "The AI model encountered a temporary hiccup. Please try again." \/
   App.errorText (snd (App.on_failure err st))
   = Some "API Access Refused. Please select a valid paid key.").
Proof.
  intros Hget H500. split.
  - unfold classify, isTransient, message_includes.
    rewrite (get_prop_opt_get _ _ _ Hget).
    destruct (strict_eq_str (opt_get err "status") "INTERNAL"); [reflexivity|].
    destruct (strict_eq_num (opt_get err "code") 500); [reflexivity|].
    simpl. rewrite H500. reflexivity.
  - rewrite (on_failure_string_message err msg st Hget). cbn [snd App.errorText].
    destruct (credential_pattern (toLowerCase msg)); [right; reflexivity|].
    unfold transient_pattern. rewrite (includes_lowered_500 msg H500).
    left. reflexivity.
Qed.

Lemma transient_message_reported_witness :
  classify error_500 = Some true /\
  (App.errorText (snd (App.on_failure error_500 session))
   = Some "The AI model encountered a temporary hiccup. Please try again." \/
   App.errorText (snd (App.on_failure error_500 session))
   = Some "API Access Refused. Please select a valid paid key.").
Proof.
  apply (transient_message_reported error_500
           "got status: 500 Internal Server Error" session); reflexivity.
Defined.


Lemma generation_reads_prompts analysisResult past present audio st :
  has_prompts analysisResult ->
  App.generation analysisResult past present audio st
  = (values <- lift (App.Promise_all [past; present; audio]) ;;
     _ <- App.setData (fun prev =>
            App.mkData (App.analysis prev) (values !! 0%nat) (values !! 1%nat)
              (App.originalImage prev) (values !! 2%nat)) ;;
     App.setStatus App.complete)
      (App.mkState App.generating (App.hasKey st) (App.data st) (App.errorText st)).
Proof.
  intros (Ha & Hp & Hm). unfold App.generation, bind at 1 2 3 4 5 6.
  unfold App.setStatus at 1, lift at 1 2 3 4 5.
  rewrite (get_prop_defined analysisResult "pastReconstruction" Ha).
  rewrite (get_prop_defined _ "visualPrompt" Hp).
  rewrite (get_prop_defined analysisResult "modernRestoration" Ha).
  rewrite (get_prop_defined _ "visualPrompt" Hm).
  rewrite (get_prop_defined analysisResult "curatorNarrative" Ha).
  reflexivity.
Qed.








Lemma earlier_rejection_min {A} (ps : list (App.Settled A)) :
  forall acc t e,
  fold_left App.earlier_rejection ps acc = Some (t, e) ->
  (acc = Some (t, e) \/
   exists p, In p ps /\ App.outcome p = Throw e /\ App.settledAt p = t) /\
  (forall t0 e0, acc = Some (t0, e0) -> (t <= t0)%nat) /\
  (forall q e', In q ps -> App.outcome q = Throw e' -> (t <= App.settledAt q)%nat).
Proof.
  induction ps as [|p ps IH]; intros acc t e Hfold.
  - simpl in Hfold. subst acc. split; [left; reflexivity|]. split.
    + intros t0 e0 [= <- <-]. lia.
    + intros q e' [].
  - cbn [fold_left] in Hfold. destruct (IH _ t e Hfold) as (Horigin & Hacc & Hrest).
    unfold App.earlier_rejection in Horigin, Hacc.
    destruct (App.outcome p) as [v|e1] eqn:Hp.
    + split; [|split].
      * destruct Horigin as [->|(q & Hin & Hq & Ht)]; [left; reflexivity|].
        right. exists q. split; [right; exact Hin|]. split; assumption.
      * exact Hacc.
      * intros q e' [<-|Hin] Hq; [congruence|]. exact (Hrest q e' Hin Hq).
    + destruct acc as [[t0 e0]|].
      * destruct (Nat.leb_spec t0 (App.settledAt p)) as [Hle|Hgt].
        -- split; [|split].
           ++ destruct Horigin as [Heq|(q & Hin & Hq & Ht)]; [left; exact Heq|].
              right. exists q. split; [right; exact Hin|]. split; assumption.
           ++ exact Hacc.
           ++ intros q e' [<-|Hin] Hq; [|exact (Hrest q e' Hin Hq)].
              specialize (Hacc t0 e0 eq_refl). lia.
        -- split; [|split].
           ++ right. destruct Horigin as [[= <- <-]|(q & Hin & Hq & Ht)].
              ** exists p. split; [left; reflexivity|]. split; [exact Hp|reflexivity].
              ** exists q. split; [right; exact Hin|]. split; assumption.
           ++ intros t1 e1' [= <- <-]. specialize (Hacc _ _ eq_refl). lia.
           ++ intros q e' [<-|Hin] Hq; [|exact (Hrest q e' Hin Hq)].
              exact (Hacc _ _ eq_refl).
      * split; [|split].
        -- right. destruct Horigin as [[= <- <-]|(q & Hin & Hq & Ht)].
           ++ exists p. split; [left; reflexivity|]. split; [exact Hp|reflexivity].
           ++ exists q. split; [right; exact Hin|]. split; assumption.
        -- intros t0 e0 [=].
        -- intros q e' [<-|Hin] Hq; [|exact (Hrest q e' Hin Hq)].
           exact (Hacc _ _ eq_refl).
Qed.

(** X14.  When the prompts can be read and at least one of the three
    generation calls is rejected, the error that reaches the [catch] block
    is the reason of a call that was rejected no later than any other
    rejected call; what the other calls returned, earlier or later, plays
    no part. *)
Theorem generation_stage_earliest_rejection (analysisResult : JSVal)
    (past present audio : App.Settled string) (st : App.State) :
  has_prompts analysisResult ->
  (exists p e, In p [past; present; audio] /\ App.outcome p = Throw e) ->
  exists p e,
    In p [past; present; audio] /\
    App.outcome p = Throw e /\
    (forall q e', In q [past; present; audio] -> App.outcome q = Throw e' ->
       (App.settledAt p <= App.settledAt q)%nat) /\
    App.generation_stage analysisResult past present audio st
    = App.on_failure e
        (App.mkState App.generating (App.hasKey st) (App.data st) (App.errorText st)).
Proof.
  intros Hp Hsome.
  destruct (earliest_rejection [past; present; audio] None (or_intror Hsome))
    as (t & e & Hfold & _).
  destruct (earlier_rejection_min _ _ _ _ Hfold) as ([Habs|(p & Hin & Hout & Ht)] & _ & Hmin);
    [discriminate|].
  exists p, e. split; [exact Hin|]. split; [exact Hout|]. split.
  - intros q e' Hq Hqe. rewrite Ht. exact (Hmin q e' Hq Hqe).
  - unfold App.generation_stage, App.try_catch.
    rewrite (generation_reads_prompts analysisResult past present audio st Hp).
    unfold bind at 1, lift at 1, App.Promise_all. rewrite Hfold. reflexivity.
Qed.

Lemma generation_stage_earliest_rejection_witness :
  exists p e,
    In p [past_failed_late; present_ok; audio_failed] /\
    App.outcome p = Throw e /\
    (forall q e', In q [past_failed_late; present_ok; audio_failed] ->
       App.outcome q = Throw e' -> (App.settledAt p <= App.settledAt q)%nat) /\
    App.generation_stage (App.analysis (App.data session))
      past_failed_late present_ok audio_failed session
    = App.on_failure e
        (App.mkState App.generating (App.hasKey session) (App.data session)
           (App.errorText session)).
Proof.
  apply (generation_stage_earliest_rejection (App.analysis (App.data session))
           past_failed_late present_ok audio_failed session).
  - repeat split.
  - exists audio_failed, (Error "Audio synthesis failed.").
    split; [simpl; tauto|reflexivity].
Defined.

(* ===================================================================== *)
(** ** Narration playback *)
(* ===================================================================== *)

Lemma length_list_ascii (s : string) :
  length (list_ascii_of_string s) = String.length s.
Proof. induction s as [|c s IH]; simpl; [reflexivity|]. rewrite IH. reflexivity. Qed.

(** X15.  [playNarrative] on a session that is not playing, with a
    non-empty audio blob whose base64 text (the blob itself, or what
    follows the first comma) decodes to [2 * n] characters, [n] at least
    1, and a context, kept from before or new, that supports one channel
    at 24000 Hz: playback starts, the context is kept, and the source
    plays a mono buffer of [n] frames at 24000 Hz whose frame [f] is the
    little-endian signed 16-bit integer of characters [2 f] and [2 f + 1],
    divided by 32768. *)
Theorem playNarrative_plays (atob : string -> result string)
    (newAudioContext : result Audio.AudioContext) (blob binary : string)
    (st : Player.State) (ctx : Audio.AudioContext) (n : nat) :
  Player.isPlaying st = false ->
  blob <> "" ->
  match Player.audioContextRef st with
  | Some c => Ok c
  | None => newAudioContext
  end = Ok ctx ->
  supports ctx 24000 1 ->
  atob (Player.base64_of blob) = Ok binary ->
  String.length binary = (2 * n)%nat ->
  (1 <= n)%nat ->
  Z.of_nat n < 2 ^ 32 ->
  exists buffer,
    Player.playNarrative atob newAudioContext (Some blob) st
    = Player.mkPlayer true (Some ctx) (Some buffer) /\
    Audio.sampleRate buffer = 24000 /\
    Audio.numberOfChannels buffer = 1%nat /\
    Audio.frames buffer = Some n /\
    forall f, (f < n)%nat ->
      exists lo hi,
        list_ascii_of_string binary !! (2 * f)%nat = Some lo /\
        list_ascii_of_string binary !! (2 * f + 1)%nat = Some hi /\
        Audio.sample_at buffer 0 f
        = Some (Audio.Fin (Audio.int16 (byte_of_ascii lo) (byte_of_ascii hi) # 32768)).
Proof.
  intros Hidle Hblob Hctx Hsup Hatob Hlen Hn Hwrap.
  set (bytes := byte_of_ascii <$> list_ascii_of_string binary).
  assert (Hbytes : length bytes = (2 * n)%nat)
    by (unfold bytes; rewrite length_fmap, length_list_ascii; exact Hlen).
  destruct (even_length_samples bytes n Hbytes) as [Heven Hsamples].
  destruct (decode_complete_frames bytes ctx 24000 1%nat Hsup Heven)
    as (buffer & Hdec & Hrate & Hch & Hfr & Hs);
    rewrite ?Hsamples, ?Nat.div_1_r; try assumption.
  rewrite Hsamples, Nat.div_1_r in Hfr, Hs.
  exists buffer. split.
  - unfold Player.playNarrative. rewrite Hidle.
    destruct (String.eqb_spec blob ""); [contradiction|].
    rewrite Hctx. unfold Player.decodeBase64. rewrite Hatob. fold bytes.
    rewrite Hdec. reflexivity.
  - split; [exact Hrate|]. split; [exact Hch|]. split; [exact Hfr|].
    intros f Hf. destruct (Hs 0%nat f ltac:(lia) Hf) as (raw & Hraw & Hsample).
    replace (f * 1 + 0)%nat with f in Hraw by lia.
    destruct (int16_view_bytes bytes f raw Hraw) as (lo & hi & Hlo & Hhi & ->).
    unfold bytes in Hlo, Hhi. rewrite list_lookup_fmap in Hlo, Hhi.
    destruct (list_ascii_of_string binary !! (2 * f)%nat) as [clo|] eqn:Eclo;
      [|discriminate].
    destruct (list_ascii_of_string binary !! (2 * f + 1)%nat) as [chi|] eqn:Echi;
      [|discriminate].
    injection Hlo as <-. injection Hhi as <-.
    exists clo, chi. repeat split. exact Hsample.
Qed.

Lemma playNarrative_plays_witness :
  exists buffer,
    Player.playNarrative atob_model (Ok standard_context)
      (Some "data:audio/pcm;base64,AEAAwA==") silent
    = Player.mkPlayer true (Some standard_context) (Some buffer) /\
    Audio.sampleRate buffer = 24000 /\
    Audio.numberOfChannels buffer = 1%nat /\
    Audio.frames buffer = Some 2%nat /\
    forall f, (f < 2)%nat ->
      exists lo hi,
        list_ascii_of_string (String "000" (String "064" (String "000" (String "192" ""))))
          !! (2 * f)%nat = Some lo /\
        list_ascii_of_string (String "000" (String "064" (String "000" (String "192" ""))))
          !! (2 * f + 1)%nat = Some hi /\
        Audio.sample_at buffer 0 f
        = Some (Audio.Fin (Audio.int16 (byte_of_ascii lo) (byte_of_ascii hi) # 32768)).
Proof.
  apply (playNarrative_plays atob_model (Ok standard_context)
           "data:audio/pcm;base64,AEAAwA=="
           (String "000" (String "064" (String "000" (String "192" ""))))
           silent standard_context 2%nat).
  - reflexivity.
  - discriminate.
  - reflexivity.
  - unfold supports. simpl. lia.
  - reflexivity.
  - reflexivity.
  - lia.
  - reflexivity.
Defined.

(** X16.  [playNarrative] on a session that is not playing, with a
    non-empty audio blob that cannot be played: its base64 text is
    rejected by [atob], or decodes to an odd number of characters, or to
    none.  Nothing is raised to the caller and nothing plays: the flag
    stays off and the source is left as it was. *)
Theorem playNarrative_bad_audio (atob : string -> result string)
    (newAudioContext : result Audio.AudioContext) (blob : string)
    (st : Player.State) :
  Player.isPlaying st = false ->
  blob <> "" ->
  ((exists e, atob (Player.base64_of blob) = Throw e) \/
   (exists binary, atob (Player.base64_of blob) = Ok binary /\
      (Nat.odd (String.length binary) = true \/ binary = ""))) ->
  let st' := Player.playNarrative atob newAudioContext (Some blob) st in
  Player.isPlaying st' = false /\
  Player.audioSourceRef st' = Player.audioSourceRef st.
Proof.
  intros Hidle Hblob Hbad st'. subst st'. unfold Player.playNarrative.
  rewrite Hidle. destruct (String.eqb_spec blob ""); [contradiction|].
  destruct (match Player.audioContextRef st with
            | Some c => Ok c
            | None => newAudioContext
            end) as [ctx|]; [|split; reflexivity].
  unfold Player.decodeBase64.
  destruct Hbad as [[e ->]|(binary & -> & Hbin)]; [split; reflexivity|].
  destruct Hbin as [Hodd| ->].
  - unfold Audio.decodeAudioData, Audio.new_Int16Array.
    rewrite length_fmap, length_list_ascii, <- Nat.negb_odd, Hodd.
    split; reflexivity.
  - unfold Audio.decodeAudioData, Audio.new_Int16Array, Audio.createBuffer. simpl.
    rewrite !andb_false_r. destruct (Audio.maxChannels ctx); split; reflexivity.
Qed.

Lemma playNarrative_bad_audio_witness :
  let st' := Player.playNarrative atob_model (Ok standard_context) (Some "QUJD") silent in
  Player.isPlaying st' = false /\
  Player.audioSourceRef st' = Player.audioSourceRef silent.
Proof.
  apply (playNarrative_bad_audio atob_model (Ok standard_context) "QUJD" silent).
  - reflexivity.
  - discriminate.
  - right. exists "ABC". split; [reflexivity|]. left. reflexivity.
Defined.

(** X17.  Two facts that every playback operation ([playNarrative],
    [stopAudio], the end of a source) keeps: a session marked as playing
    has a source, and an audio context, once stored, stays the stored
    one, so that a context is constructed at most once. *)
Theorem playback_invariants (atob : string -> result string)
    (newAudioContext : result Audio.AudioContext) (audioBlob : option string)
    (st : Player.State) :
  (Player.isPlaying st = true -> is_Some (Player.audioSourceRef st)) ->
  let after := [Player.playNarrative atob newAudioContext audioBlob st;
                Player.stopAudio st; Player.onended st] in
  Forall (fun st' =>
            (Player.isPlaying st' = true -> is_Some (Player.audioSourceRef st')) /\
            (forall ctx, Player.audioContextRef st = Some ctx ->
               Player.audioContextRef st' = Some ctx))
    after.
Proof.
  intros Hinv after. subst after.
  repeat constructor; try discriminate; try (intros ctx Hctx; exact Hctx).
  - unfold Player.playNarrative. destruct (Player.isPlaying st) eqn:Hp; [discriminate|].
    destruct audioBlob as [blob|]; [|rewrite Hp; discriminate].
    destruct (String.eqb blob ""); [rewrite Hp; discriminate|].
    destruct (match Player.audioContextRef st with
              | Some c => Ok c
              | None => newAudioContext
              end) as [ctx|]; [|discriminate].
    destruct (Player.decodeBase64 atob (Player.base64_of blob)) as [bytes|];
      [|discriminate].
    destruct (Audio.decodeAudioData bytes ctx 24000 1); [eauto|discriminate].
  - intros ctx Hctx. unfold Player.playNarrative. rewrite Hctx.
    destruct (Player.isPlaying st); [exact Hctx|].
    destruct audioBlob as [blob|]; [|exact Hctx].
    destruct (String.eqb blob ""); [exact Hctx|].
    destruct (Player.decodeBase64 atob (Player.base64_of blob)) as [bytes|];
      [|reflexivity].
    destruct (Audio.decodeAudioData bytes ctx 24000 1); reflexivity.
Qed.

Lemma playback_invariants_witness :
  Forall (fun st' =>
            (Player.isPlaying st' = true -> is_Some (Player.audioSourceRef st')) /\
            (forall ctx, Player.audioContextRef silent = Some ctx ->
               Player.audioContextRef st' = Some ctx))
    [Player.playNarrative atob_model (Ok standard_context) (Some "AEAAwA==") silent;
     Player.stopAudio silent; Player.onended silent].
Proof.
  apply (playback_invariants atob_model (Ok standard_context) (Some "AEAAwA==") silent).
  discriminate.
Defined.

(* ===================================================================== *)
(** ** The upload flow *)
(* ===================================================================== *)

(** X18.  An upload while no key is selected is not processed: the file is
    not read and nothing is analyzed; the status, the data and the error
    text of the session stay as they are, whatever the file and the
    services would answer.  Only the key flag may change: it is switched on
    when the key dialog of the host exists and settles. *)
Theorem processFile_without_key (file : UI.File) (answers : UI.Answers)
    (st : App.State) :
  App.hasKey st = false ->
  let st' := snd (UI.processFile file answers st) in
  App.status st' = App.status st /\
  App.data st' = App.data st /\
  App.errorText st' = App.errorText st /\
  App.hasKey st' = match UI.aistudio answers with
                   | Some (Ok _) => true
                   | _ => false
                   end.
Proof.
  intros Hkey st'. subst st'. unfold UI.processFile. rewrite Hkey. simpl.
  unfold UI.handleOpenKeySelector.
  destruct (UI.aistudio answers) as [[[]|e]|]; simpl; rewrite ?Hkey; repeat split.
Qed.

Lemma processFile_without_key_witness :
  let st' := snd (UI.processFile vase_photo answers_ok (UI.app (screen UI.old false))) in
  App.status st' = App.idle /\
  App.data st' = App.data session /\
  App.errorText st' = Some "previous failure" /\
  App.hasKey st' = true.
Proof.
  apply (processFile_without_key vase_photo answers_ok (UI.app (screen UI.old false))).
  reflexivity.
Defined.

(** X19.  In the mode for new artifacts an upload is held back: picking a
    file changes nothing in the session and opens the warning with the file
    pending.  Confirming then processes exactly that file, with the same
    effect on the session as picking it in the other mode, and cancelling
    leaves the session untouched; either way the warning is closed and no
    file is pending, so a later confirmation processes nothing. *)
Theorem upload_held_back (file : UI.File) (answers answers' : UI.Answers)
    (st : UI.State) :
  UI.artifactMode st = UI.new ->
  let picked := UI.handleFileUpload (Some file) answers st in
  let direct := UI.handleFileUpload (Some file) answers
                  (UI.mkUI UI.old (UI.showWarningModal st) (UI.pendingFile st)
                     (UI.app st) (UI.player st)) in
  UI.app picked = UI.app st /\
  UI.showWarningModal picked = true /\
  UI.pendingFile picked = Some file /\
  UI.app (UI.confirmUpload answers picked) = UI.app direct /\
  UI.pendingFile (UI.confirmUpload answers picked) = None /\
  UI.showWarningModal (UI.confirmUpload answers picked) = false /\
  UI.cancelUpload picked = UI.mkUI UI.new false None (UI.app st) (UI.player st) /\
  UI.app (UI.confirmUpload answers' (UI.cancelUpload picked)) = UI.app st.
Proof.
  intros Hmode picked direct. subst picked direct.
  unfold UI.handleFileUpload. rewrite Hmode. cbn. repeat split.
Qed.

Lemma upload_held_back_witness :
  let picked := UI.handleFileUpload (Some vase_photo) answers_ok (screen UI.new true) in
  let direct := UI.handleFileUpload (Some vase_photo) answers_ok (screen UI.old true) in
  UI.app picked = UI.app (screen UI.new true) /\
  UI.showWarningModal picked = true /\
  UI.pendingFile picked = Some vase_photo /\
  UI.app (UI.confirmUpload answers_ok picked) = UI.app direct /\
  UI.pendingFile (UI.confirmUpload answers_ok picked) = None /\
  UI.showWarningModal (UI.confirmUpload answers_ok picked) = false /\
  UI.cancelUpload picked = UI.mkUI UI.new false None (UI.app (screen UI.new true)) silent /\
  UI.app (UI.confirmUpload answers_ok (UI.cancelUpload picked))
  = UI.app (screen UI.new true).
Proof.
  apply (upload_held_back vase_photo answers_ok answers_ok (screen UI.new true)).
  reflexivity.
Defined.



(* ===================================================================== *)
(** ** Across the services and the handler *)
(* ===================================================================== *)



(** X22.  Whatever [generateSpeech] returns is a non-empty string: the
    inline data of the first part of a response that the remote call
    returned. *)
Theorem generateSpeech_nonempty {S} (generateContent : Gemini.Remote S)
    (narrative : string) (w w' : World S) (base64Audio : string) :
  Gemini.generateSpeech generateContent narrative w = (Ok base64Audio, w') ->
  base64Audio <> "" /\
  exists s response,
    generateContent (Gemini.speech_request narrative) s = (Ok response, remote w') /\
    Gemini.parts0 response ?> head ?> Gemini.inlineData ?> Gemini.data
    = Some base64Audio.
Proof.
  intros Hrun. destruct (withRetry_ok_inv _ _ _ _ _ _ Hrun) as (s & Honce).
  unfold Gemini.generate_speech_once, bind in Honce.
  destruct (generateContent (Gemini.speech_request narrative) s)
    as [[response|e] s1] eqn:Hgc; [|discriminate].
  destruct (Gemini.parts0 response ?> head ?> Gemini.inlineData ?> Gemini.data)
    as [d|] eqn:Hd; [|discriminate].
  destruct (String.eqb_spec d "") as [->|Hne]; [discriminate|].
  injection Honce as <- <-. split; [exact Hne|].
  exists s, response. split; [exact Hgc|exact Hd].
Qed.

Lemma generateSpeech_nonempty_witness :
  "AEAAwA==" <> "" /\
  exists s response,
    scripted_remote (Gemini.speech_request "A vase.") s = (Ok response, []) /\
    Gemini.parts0 response ?> head ?> Gemini.inlineData ?> Gemini.data
    = Some "AEAAwA==".
Proof.
  apply (generateSpeech_nonempty scripted_remote "A vase."
           (mkWorld [Throw error_500; Ok audio_response] [])
           (mkWorld [] [Attempt; Sleep 1000; Attempt])).
  reflexivity.
Defined.

(** X23.  Whatever [generateImage] returns begins with
    [data:image/png;base64,], and is that prefix followed by the inline
    data of a part of a response that the remote call returned, no part
    before it having inline data. *)
Theorem generateImage_always_png {S} (generateContent : Gemini.Remote S)
    (prompt : string) (w w' : World S) (url : string) :
  Gemini.generateImage generateContent prompt w = (Ok url, w') ->
  String.prefix "data:image/png;base64," url = true /\
  exists s response blob,
    generateContent (Gemini.image_request prompt) s = (Ok response, remote w') /\
    first_inline (default [] (Gemini.parts0 response)) = Some blob /\
    url = "data:image/png;base64," ++ template (Gemini.data blob).
Proof.
  intros Hrun. destruct (withRetry_ok_inv _ _ _ _ _ _ Hrun) as (s & Honce).
  unfold Gemini.generate_image_once, bind, lift in Honce.
  destruct (generateContent (Gemini.image_request prompt) s)
    as [[response|e] s1] eqn:Hgc; [|discriminate].
  rewrite scan_parts_first_inline in Honce.
  destruct (first_inline (default [] (Gemini.parts0 response))) as [blob|] eqn:Hb;
    [|discriminate].
  injection Honce as <- <-. split.
  - apply prefix_app. eexists. reflexivity.
  - exists s, response, blob. repeat split; assumption.
Qed.

Lemma generateImage_always_png_witness :
  String.prefix "data:image/png;base64," "data:image/png;base64,/9j/4AAQ" = true /\
  exists s response blob,
    scripted_remote (Gemini.image_request "a vase") s = (Ok response, []) /\
    first_inline (default [] (Gemini.parts0 response)) = Some blob /\
    "data:image/png;base64,/9j/4AAQ"
    = "data:image/png;base64," ++ template (Gemini.data blob).
Proof.
  apply (generateImage_always_png scripted_remote "a vase"
           (mkWorld [Throw error_internal; Ok jpeg_response] [])
           (mkWorld [] [Attempt; Sleep 1000; Attempt])).
  reflexivity.
Defined.

Lemma int16_range (lo hi : byte) : -32768 <= Audio.int16 lo hi <= 32767.
Proof.
  unfold Audio.int16.
  pose proof (Byte.to_N_bounded lo) as Hlo. pose proof (Byte.to_N_bounded hi) as Hhi.
  set (u := Z.of_N (Byte.to_N lo) + 256 * Z.of_N (Byte.to_N hi)).
  assert (0 <= u <= 65535) by (unfold u; lia).
  destruct (Z.ltb_spec u 32768); lia.
Qed.

(** X24.  On a byte buffer of even length with at least one complete
    frame, for a supported channel count and rate, every sample that the
    decoder stores is a number, never NaN, of at least -1 and below 1. *)
Theorem decodeAudioData_sample_range (data : list byte) (ctx : Audio.AudioContext)
    (rate : Z) (numChannels : nat) :
  supports ctx rate numChannels ->
  Nat.even (length data) = true ->
  let frameCount := (length data / (2 * numChannels))%nat in
  (1 <= frameCount)%nat ->
  Z.of_nat frameCount < 2 ^ 32 ->
  exists buffer,
    Audio.decodeAudioData data ctx rate numChannels = Ok buffer /\
    forall c f, (c < numChannels)%nat -> (f < frameCount)%nat ->
      exists q, Audio.sample_at buffer c f = Some (Audio.Fin q) /\
                (-1 <= q)%Q /\ (q < 1)%Q.
Proof.
  intros Hsup Heven frameCount Hone Hwrap.
  assert (Hpos : (1 <= numChannels)%nat) by (destruct Hsup; lia).
  assert (Hhalf : length data = (2 * length (Audio.int16_view data))%nat).
  { rewrite length_int16_view.
    pose proof (Nat.div2_odd (length data)) as Hodd.
    rewrite <- Nat.negb_even, Heven in Hodd. simpl in Hodd. lia. }
  assert (Hdiv : (length (Audio.int16_view data) / numChannels)%nat = frameCount).
  { unfold frameCount. rewrite Hhalf at 1.
    rewrite Nat.Div0.div_mul_cancel_l by lia. reflexivity. }
  destruct (decode_complete_frames data ctx rate numChannels Hsup Heven)
    as (buffer & Hdec & _ & _ & _ & Hs); rewrite ?Hdiv; try assumption.
  rewrite Hdiv in Hs. exists buffer. split; [exact Hdec|].
  intros c f Hc Hf. destruct (Hs c f Hc Hf) as (raw & Hraw & Hsample).
  destruct (int16_view_bytes data _ raw Hraw) as (lo & hi & _ & _ & ->).
  exists (Audio.int16 lo hi # 32768)%Q. split; [exact Hsample|].
  pose proof (int16_range lo hi) as Hr.
  unfold Qle, Qlt. simpl. lia.
Qed.

Lemma decodeAudioData_sample_range_witness :
  exists buffer,
    Audio.decodeAudioData [x00; x40; x00; xc0; xff; x7f; x00; x80]
      standard_context 24000 2 = Ok buffer /\
    forall c f, (c < 2)%nat -> (f < 8 / (2 * 2))%nat ->
      exists q, Audio.sample_at buffer c f = Some (Audio.Fin q) /\
                (-1 <= q)%Q /\ (q < 1)%Q.
Proof.
  apply (decodeAudioData_sample_range [x00; x40; x00; xc0; xff; x7f; x00; x80]
           standard_context 24000 2%nat).
  - unfold supports. simpl. lia.
  - reflexivity.
  - simpl. lia.
  - reflexivity.
Defined.





(** X26.  The [catch] block reads [err.message] and lowers it without a
    guard: on a thrown [null] or [undefined], and on an error whose message
    is truthy but not a string, the block itself throws a TypeError before
    it sets anything, so the status is not set to [error] and the state is
    left as the failing stage left it. *)
Theorem on_failure_unreadable (err : JSVal) (st : App.State) :
  nullish err = true \/
  (exists m, get_prop err "message" = Ok m /\ truthy m = true /\
             forall s, m <> JStr s) ->
  exists msg, App.on_failure err st = (Throw (TypeError msg), st).
Proof.
  intros [Hnull|(m & Hget & Htruthy & Hnot)]; unfold App.on_failure, bind, lift.
  - destruct err; try discriminate; simpl; eexists; reflexivity.
  - rewrite Hget. unfold App.lowered_message. rewrite Htruthy.
    destruct m; try (eexists; reflexivity). exfalso. exact (Hnot s eq_refl).
Qed.

Lemma on_failure_unreadable_witness :
  exists msg,
    App.on_failure error_numeric_message
      (App.mkState App.generating true (App.data session) None)
    = (Throw (TypeError msg),
       App.mkState App.generating true (App.data session) None).
Proof.
  apply (on_failure_unreadable error_numeric_message).
  right. exists (JNum 42). split; [reflexivity|]. split; [reflexivity|].
  intros s. discriminate.
Defined.
